(** * alx-backend-storage, 0x02-redis_basic/exercise.py

    A shallow embedding of the [Cache] class, of its two decorators
    [count_calls] and [call_history] and of [replay], over a model of the
    Redis client they talk to, with the properties of the specification
    proved about the embedding. *)

From Stdlib Require Import ZArith NArith Lia List Ascii String PrimFloat.
From stdpp Require Import base option list strings gmap.

Local Open Scope N_scope.

(** ** Python data *)

(** A Python [str] is a sequence of code points; a [bytes] object is a
    sequence of octets, for which Rocq's [string] (a list of 8-bit
    characters) is used. *)
Definition text := list N.
Definition bytes := string.

(** A source literal such as ['Cache.store'] (one code point per
    character). *)
Definition lit (s : string) : text := map N_of_ascii (list_ascii_of_string s).

Definition unpack (b : bytes) : list N := map N_of_ascii (list_ascii_of_string b).
Definition pack (l : list N) : bytes := string_of_list_ascii (map ascii_of_N l).

(** The exceptions that the modelled code can raise. *)
Inductive exn :=
| TypeError
| ValueError
| AttributeError
| UnicodeEncodeError
| UnicodeDecodeError
| DataError
| ResponseError.

Inductive outcome (A : Type) :=
| Ok (a : A)
| Raise (e : exn).
Arguments Ok {A} a.
Arguments Raise {A} e.

(** The values that reach [Cache.store]: the four supported types, and
    [None] and [bool] for arguments of another type. *)
Inductive pyval :=
| VNone
| VBool (b : bool)
| VInt (z : Z)
| VFloat (f : float)
| VStr (s : text)
| VBytes (b : bytes).

(** ** UTF-8, as [str.encode('utf-8')] and [bytes.decode('utf-8')] (strict) *)

Definition is_surrogate (c : N) : bool := (0xD800 <=? c) && (c <=? 0xDFFF).

Definition utf8_encode_cp (c : N) : option (list N) :=
  if c <? 0x80 then Some [c]
  else if c <? 0x800 then Some [0xC0 + c / 64; 0x80 + c mod 64]
  else if c <? 0x10000 then
    if is_surrogate c then None
    else Some [0xE0 + c / 4096; 0x80 + (c / 64) mod 64; 0x80 + c mod 64]
  else if c <? 0x110000 then
    Some [0xF0 + c / 262144; 0x80 + (c / 4096) mod 64;
          0x80 + (c / 64) mod 64; 0x80 + c mod 64]
  else None.

Fixpoint utf8_encode_list (s : text) : option (list N) :=
  match s with
  | [] => Some []
  | c :: s' =>
      match utf8_encode_cp c, utf8_encode_list s' with
      | Some b, Some bs => Some (b ++ bs)
      | _, _ => None
      end
  end.

Definition utf8_encode (s : text) : option bytes := pack <$> utf8_encode_list s.

(** Text that [encode] accepts. *)
Definition encodable (s : text) : Prop := is_Some (utf8_encode s).

Definition is_cont (b : N) : bool := (0x80 <=? b) && (b <? 0xC0).

Fixpoint utf8_decode_list (b : list N) : option text :=
  match b with
  | [] => Some []
  | b0 :: r =>
      if b0 <? 0x80 then cons b0 <$> utf8_decode_list r
      else if b0 <? 0xC0 then None
      else if b0 <? 0xE0 then
        match r with
        | b1 :: r1 =>
            let c := (b0 - 0xC0) * 64 + (b1 - 0x80) in
            if is_cont b1 && (0x80 <=? c) then cons c <$> utf8_decode_list r1
            else None
        | _ => None
        end
      else if b0 <? 0xF0 then
        match r with
        | b1 :: b2 :: r2 =>
            let c := (b0 - 0xE0) * 4096 + (b1 - 0x80) * 64 + (b2 - 0x80) in
            if is_cont b1 && is_cont b2 && (0x800 <=? c) && negb (is_surrogate c)
            then cons c <$> utf8_decode_list r2
            else None
        | _ => None
        end
      else if b0 <? 0xF8 then
        match r with
        | b1 :: b2 :: b3 :: r3 =>
            let c := (b0 - 0xF0) * 262144 + (b1 - 0x80) * 4096
                     + (b2 - 0x80) * 64 + (b3 - 0x80) in
            if is_cont b1 && is_cont b2 && is_cont b3
               && (0x10000 <=? c) && (c <? 0x110000)
            then cons c <$> utf8_decode_list r3
            else None
        | _ => None
        end
      else None
  end.

Definition utf8_decode (b : bytes) : option text := utf8_decode_list (unpack b).

(** ** Integers as text: [repr(int)] and [int(bytes)] *)

(** The decimal digits of [n], most significant first.  [fuel] bounds the
    number of digits; the binary length of [n] is always enough.  (The
    limit that recent interpreters put on the number of digits of such a
    conversion is a setting of the interpreter and is left out.) *)
Fixpoint dec_digits (fuel : nat) (n : N) : list N :=
  match fuel with
  | O => []
  | S f => if n <? 10 then [48 + n]
           else dec_digits f (n / 10) ++ [48 + n mod 10]
  end.

Definition N_repr (n : N) : list N := dec_digits (S (N.to_nat (N.log2 n))) n.

Definition int_repr (z : Z) : bytes :=
  if (z <? 0)%Z then pack (45 :: N_repr (Z.to_N (- z))) else pack (N_repr (Z.to_N z)).

(** [int(x)] for a bytes object [x]: surrounding ASCII white space is
    dropped, one sign is allowed, and the digits may be separated by single
    underscores. *)
Definition is_space (b : N) : bool := (b =? 32) || ((9 <=? b) && (b <=? 13)).
Definition is_digit (b : N) : bool := (48 <=? b) && (b <=? 57).

Fixpoint lstrip (l : list N) : list N :=
  match l with
  | b :: r => if is_space b then lstrip r else l
  | [] => []
  end.

Definition strip (l : list N) : list N := rev (lstrip (rev (lstrip l))).

Fixpoint digits_value (acc : N) (after_digit : bool) (l : list N) : option N :=
  match l with
  | [] => if after_digit then Some acc else None
  | b :: r =>
      if is_digit b then digits_value (10 * acc + (b - 48)) true r
      else if (b =? 95) && after_digit then digits_value acc false r
      else None
  end.

(** The number that a string of digits denotes, after [acc]. *)
Definition horner (acc : N) (l : list N) : N :=
  fold_left (fun a d => 10 * a + (d - 48)) l acc.

Definition int_of_bytes (b : bytes) : option Z :=
  match strip (unpack b) with
  | s :: r =>
      if s =? 45 then (fun n => (- Z.of_N n)%Z) <$> digits_value 0 false r
      else if s =? 43 then Z.of_N <$> digits_value 0 false r
      else Z.of_N <$> digits_value 0 false (s :: r)
  | [] => None
  end.

(** ** [repr(bytes)], which is what [format] prints for a bytes object *)

Definition hex_char (d : N) : N := if d <? 10 then 48 + d else 87 + d.

Definition bytes_escape (quote c : N) : list N :=
  if (c =? quote) || (c =? 92) then [92; c]
  else if c =? 9 then [92; 116]
  else if c =? 10 then [92; 110]
  else if c =? 13 then [92; 114]
  else if (c <? 32) || (127 <=? c) then [92; 120; hex_char (c / 16); hex_char (c mod 16)]
  else [c].

Definition bytes_repr (b : bytes) : text :=
  let l := unpack b in
  let quote := if existsb (N.eqb 39) l && negb (existsb (N.eqb 34) l) then 34 else 39 in
  [98; quote] ++ concat (map (bytes_escape quote) l) ++ [quote].

(** ** [uuid.uuid4()] and [str] of it *)

(** [rand] stands for the 16 random octets drawn from the operating
    system; the variant and version bits are then forced. *)
Definition uuid4 (rand : N) : N :=
  let i := rand mod 2 ^ 128 in
  let i := N.lor (N.ldiff i (N.shiftl 0xc000 48)) (N.shiftl 0x8000 48) in
  N.lor (N.ldiff i (N.shiftl 0xf000 64)) (N.shiftl 4 76).

Fixpoint hex_digits (k : nat) (n : N) : list N :=
  match k with
  | O => []
  | S k' => hex_digits k' (n / 16) ++ [hex_char (n mod 16)]
  end.

Definition uuid_str (i : N) : text :=
  let hex := hex_digits 32 i in
  take 8 hex ++ [45] ++ take 4 (drop 8 hex) ++ [45] ++ take 4 (drop 12 hex)
    ++ [45] ++ take 4 (drop 16 hex) ++ [45] ++ drop 20 hex.

(** ** The state-and-exception monad of the embedding

    A computation runs on a state and gives an outcome and the state it
    leaves; the state written before an exception is raised stays
    written. *)
Definition M (St A : Type) : Type := St -> outcome A * St.

Definition ret {St A} (a : A) : M St A := fun s => (Ok a, s).
Definition raise {St A} (e : exn) : M St A := fun s => (Raise e, s).
Definition bind {St A B} (m : M St A) (k : A -> M St B) : M St B :=
  fun s => match m s with
           | (Ok a, s') => k a s'
           | (Raise e, s') => (Raise e, s')
           end.
Definition lift {St A} (o : outcome A) : M St A := fun s => (o, s).

Notation "'let*' x ':=' m 'in' k" := (bind m (fun x => k))
  (at level 10, x name, m at level 100, k at level 200).
Notation "m ';;' k" := (bind m (fun _ => k))
  (at level 100, k at level 200, right associativity).

Fixpoint for_each {St A} (l : list A) (body : A -> M St unit) : M St unit :=
  match l with
  | [] => ret tt
  | x :: l' => body x ;; for_each l' body
  end.

(** ** The store client

    Modelled from the spec: the store client (the [redis] package and the
    server behind it) is an external collaborator, used through the
    contract of section 4.1: set, get, increment, append to a list, list
    range, exists and flush.  A database maps a key to a byte string or to
    a list of byte strings; a command on a key that holds the other kind of
    value is refused, and counters are kept as decimal byte strings.  The
    64-bit range of the server's counters is not part of the contract and
    is not modelled. *)
Inductive rval :=
| RString (b : bytes)
| RList (l : list bytes).

Abbreviation database := (gmap string rval).

(** [is_redis] is the answer of [isinstance(_, redis.Redis)]; a stand-in
    answers [false] and offers the same commands on its own data. *)
Record client := { is_redis : bool; db : database }.

Definition with_db (c : client) (d : database) : client :=
  {| is_redis := is_redis c; db := d |}.

(** The server reads a counter only in its canonical decimal form. *)
Definition redis_int (b : bytes) : option Z :=
  match int_of_bytes b with
  | Some z => if String.eqb (int_repr z) b then Some z else None
  | None => None
  end.

Definition cmd_set (k v : bytes) (d : database) : outcome bool * database :=
  (Ok true, <[k := RString v]> d).

Definition cmd_get (k : bytes) (d : database) : outcome (option bytes) :=
  match d !! k with
  | None => Ok None
  | Some (RString b) => Ok (Some b)
  | Some (RList _) => Raise ResponseError
  end.

Definition cmd_incr (k : bytes) (d : database) : outcome Z * database :=
  match d !! k with
  | None => (Ok 1%Z, <[k := RString (int_repr 1)]> d)
  | Some (RString b) =>
      match redis_int b with
      | Some z => (Ok (z + 1)%Z, <[k := RString (int_repr (z + 1))]> d)
      | None => (Raise ResponseError, d)
      end
  | Some (RList _) => (Raise ResponseError, d)
  end.

Definition cmd_rpush (k v : bytes) (d : database) : outcome Z * database :=
  match d !! k with
  | None => (Ok 1%Z, <[k := RList [v]]> d)
  | Some (RList l) => (Ok (Z.of_nat (length l) + 1)%Z, <[k := RList (l ++ [v])]> d)
  | Some (RString _) => (Raise ResponseError, d)
  end.

(** LRANGE: both ends are inclusive, a negative index counts from the
    end of the list. *)
Definition range_of {A} (l : list A) (start stop : Z) : list A :=
  let len := Z.of_nat (length l) in
  let s := if (start <? 0)%Z then Z.max 0 (len + start) else start in
  let e := if (stop <? 0)%Z then (len + stop)%Z else Z.min stop (len - 1) in
  if (e <? s)%Z then [] else take (Z.to_nat (e - s + 1)) (drop (Z.to_nat s) l).

Definition cmd_lrange (k : bytes) (start stop : Z) (d : database) : outcome (list bytes) :=
  match d !! k with
  | None => Ok []
  | Some (RList l) => Ok (range_of l start stop)
  | Some (RString _) => Raise ResponseError
  end.

Definition cmd_exists (k : bytes) (d : database) : Z :=
  match d !! k with
  | None => 0%Z
  | Some _ => 1%Z
  end.

(** A sample of the two runtime functions left abstract below, used to
    run the embedding on concrete inputs: every float prints as [0.0], and
    a string is quoted with every code point that UTF-8 cannot carry
    written as a backslash, [u] and four hexadecimal digits. *)
Definition sample_float_repr (f : float) : bytes := "0.0"%string.
Definition sample_str_repr (s : text) : text :=
  [39] ++ concat (map (fun c => if is_surrogate c || (0x110000 <=? c)
                                then [92; 117] ++ hex_digits 4 c
                                else [c]) s) ++ [39].

Section Exercise.

(** Python's [repr] of a float (ASCII) and of a str are runtime functions
    of the interpreter; [repr] of a str escapes whatever cannot be
    printed, lone surrogates included, so its result can always be
    encoded. *)
Variable float_repr : float -> bytes.
Variable str_repr : text -> text.
Hypothesis str_repr_encodable : forall s, is_Some (utf8_encode (str_repr s)).

(** *** The client's commands, as [redis.Redis] offers them *)

(** How the client turns a command argument into bytes. *)
Definition encode (v : pyval) : outcome bytes :=
  match v with
  | VBytes b => Ok b
  | VBool _ => Raise DataError
  | VInt z => Ok (int_repr z)
  | VFloat f => Ok (float_repr f)
  | VStr s =>
      match utf8_encode s with
      | Some b => Ok b
      | None => Raise UnicodeEncodeError
      end
  | VNone => Raise DataError
  end.

Definition write {A} (cmd : database -> outcome A * database) : M client A :=
  fun c => let (o, d) := cmd (db c) in (o, with_db c d).
Definition read {A} (cmd : database -> outcome A) : M client A :=
  fun c => (cmd (db c), c).

Definition redis_set (name value : pyval) : M client bool :=
  let* k := lift (encode name) in
  let* v := lift (encode value) in
  write (cmd_set k v).

Definition redis_get (name : pyval) : M client (option bytes) :=
  let* k := lift (encode name) in
  read (cmd_get k).

Definition redis_incr (name : pyval) : M client Z :=
  let* k := lift (encode name) in
  write (cmd_incr k).

Definition redis_rpush (name value : pyval) : M client Z :=
  let* k := lift (encode name) in
  let* v := lift (encode value) in
  write (cmd_rpush k v).

Definition redis_lrange (name : pyval) (start stop : Z) : M client (list bytes) :=
  let* k := lift (encode name) in
  read (cmd_lrange k start stop).

Definition redis_exists (name : pyval) : M client Z :=
  let* k := lift (encode name) in
  read (fun d => Ok (cmd_exists k d)).

Definition redis_flushdb (asynchronous : bool) : M client bool :=
  write (fun _ => (Ok true, ∅)).

(** *** [str(args)] *)

Definition py_repr (v : pyval) : text :=
  match v with
  | VNone => lit "None"
  | VBool true => lit "True"
  | VBool false => lit "False"
  | VInt z => lit (int_repr z)
  | VFloat f => lit (float_repr f)
  | VStr s => str_repr s
  | VBytes b => bytes_repr b
  end.

Fixpoint join (sep : text) (l : list text) : text :=
  match l with
  | [] => []
  | [x] => x
  | x :: l' => x ++ sep ++ join sep l'
  end.

(** [str] of a tuple: a one-element tuple keeps its trailing comma. *)
Definition str_tuple (args : list pyval) : text :=
  match args with
  | [] => lit "()"
  | [a] => lit "(" ++ py_repr a ++ lit ",)"
  | _ => lit "(" ++ join (lit ", ") (map py_repr args) ++ lit ")"
  end.

(** *** The class and its decorators *)

Record Cache := { _redis : client }.

(** A command sent through [self._redis]. *)
Definition on_redis {A} (m : M client A) : M Cache A :=
  fun self => let (o, c) := m (_redis self) in (o, {| _redis := c |}).

(** [isinstance(self._redis, redis.Redis)] *)
Definition isinstance_redis : M Cache bool :=
  fun self => (Ok (is_redis (_redis self)), self).

Definition kwargs := list (text * pyval).

(** A method of [Cache]: its [__qualname__], which [functools.wraps]
    copies to the wrapper, and its body, called with [*args] and
    [**kwargs]. *)
Record method := {
  qualname : text;
  call : list pyval -> kwargs -> M Cache pyval
}.

Definition count_calls (m : method) : method :=
  {| qualname := qualname m;
     call := fun args kw =>
       let* live := isinstance_redis in
       (if live then on_redis (redis_incr (VStr (qualname m))) ;; ret tt else ret tt) ;;
       call m args kw |}.

Definition call_history (m : method) : method :=
  {| qualname := qualname m;
     call := fun args kw =>
       let in_key := qualname m ++ lit ":inputs" in
       let out_key := qualname m ++ lit ":outputs" in
       let* live := isinstance_redis in
       (if live then on_redis (redis_rpush (VStr in_key) (VStr (str_tuple args))) ;; ret tt
        else ret tt) ;;
       let* output := call m args kw in
       let* live := isinstance_redis in
       (if live then on_redis (redis_rpush (VStr out_key) output) ;; ret tt else ret tt) ;;
       ret output |}.

Definition __init__ (server : database) : Cache :=
  let self := {| _redis := {| is_redis := true; db := server |} |} in
  snd (on_redis (redis_flushdb true) self).

(** The one parameter [data] of [store], given by position or by name;
    any other way of calling is a [TypeError]. *)
Definition bind_data (args : list pyval) (kw : kwargs) : option pyval :=
  match args, kw with
  | [data], [] => Some data
  | [], [(name, data)] => if decide (name = lit "data") then Some data else None
  | _, _ => None
  end.

(** The body of [store]; [rand] is what [uuid4] draws in this call. *)
Definition store_body (rand : N) : method :=
  {| qualname := lit "Cache.store";
     call := fun args kw =>
       match bind_data args kw with
       | None => raise TypeError
       | Some data =>
           let data_key := VStr (uuid_str (uuid4 rand)) in
           on_redis (redis_set data_key data) ;;
           ret data_key
       end |}.

Definition store (rand : N) : method := call_history (count_calls (store_body rand)).

Definition of_data (data : option bytes) : pyval :=
  match data with
  | Some b => VBytes b
  | None => VNone
  end.

(** [fn] is any callable: it is applied to what the client's [get]
    returned (bytes, or [None] for an absent key), and it may itself use
    the cache. *)
Definition get (key : pyval) (fn : option (option bytes -> M Cache pyval)) : M Cache pyval :=
  let* data := on_redis (redis_get key) in
  match fn with
  | Some f => f data
  | None => ret (of_data data)
  end.

(** [b.decode('utf-8')] and [int(b)] for a bytes object [b]. *)
Definition bytes_decode (b : bytes) : outcome text :=
  match utf8_decode b with
  | Some s => Ok s
  | None => Raise UnicodeDecodeError
  end.

Definition bytes_int (b : bytes) : outcome Z :=
  match int_of_bytes b with
  | Some z => Ok z
  | None => Raise ValueError
  end.

Definition outcome_map {A B} (f : A -> B) (o : outcome A) : outcome B :=
  match o with
  | Ok a => Ok (f a)
  | Raise e => Raise e
  end.

(** [lambda x: x.decode('utf-8')]: [None] has no [decode]. *)
Definition decode_utf8 (x : option bytes) : outcome pyval :=
  match x with
  | Some b => outcome_map VStr (bytes_decode b)
  | None => Raise AttributeError
  end.

(** [int(x)]: [None] is not a number. *)
Definition int_ (x : option bytes) : outcome Z :=
  match x with
  | Some b => bytes_int b
  | None => Raise TypeError
  end.

(** [lambda x: int(x)] *)
Definition to_int (x : option bytes) : outcome pyval := outcome_map VInt (int_ x).

Definition get_str (key : pyval) : M Cache pyval :=
  get key (Some (fun x => lift (decode_utf8 x))).
Definition get_int (key : pyval) : M Cache pyval :=
  get key (Some (fun x => lift (to_int x))).

(** *** [replay] *)

(** What [replay] looks at in its argument: [__self__], if the callable
    is a bound method, with the [_redis] attribute of that object, if it
    has one; and [__qualname__]. *)
Record callable := {
  __self__ : option (option client);
  __qualname__ : text
}.

(** The bound method [cache.store]. *)
Definition bound_store (self : Cache) : callable :=
  {| __self__ := Some (Some (_redis self)); __qualname__ := lit "Cache.store" |}.

(** The state of [replay]: the client it reads and the lines printed. *)
Record console := { redis_store : client; stdout : list text }.

Definition on_store {A} (m : M client A) : M console A :=
  fun w => let (o, c) := m (redis_store w) in (o, {| redis_store := c; stdout := stdout w |}).

Definition print (line : text) : M console unit :=
  fun w => (Ok tt, {| redis_store := redis_store w; stdout := stdout w ++ [line] |}).

Definition replay_body (fcn_name : text) : M console unit :=
  let in_key := fcn_name ++ lit ":inputs" in
  let out_key := fcn_name ++ lit ":outputs" in
  let* n := on_store (redis_exists (VStr fcn_name)) in
  let* fcn_call_count :=
    (if (n =? 0)%Z then ret 0%Z
     else let* raw := on_store (redis_get (VStr fcn_name)) in
          lift (int_ raw)) in
  print (fcn_name ++ lit " was called " ++ lit (int_repr fcn_call_count) ++ lit " times:") ;;
  let* fcn_inputs := on_store (redis_lrange (VStr in_key) 0 (-1)) in
  let* fcn_outputs := on_store (redis_lrange (VStr out_key) 0 (-1)) in
  for_each (zip fcn_inputs fcn_outputs) (fun io =>
    let (fcn_input, fcn_output) := io : bytes * bytes in
    let* decoded := lift (bytes_decode fcn_input) in
    print (fcn_name ++ lit "(" ++ lit "*" ++ decoded ++ lit ") -> " ++ bytes_repr fcn_output)).

(** [replay] returns what it printed and how it ended. *)
Definition replay (fn : option callable) : outcome unit * list text :=
  match fn with
  | None => (Ok tt, [])
  | Some f =>
      match __self__ f with
      | None => (Ok tt, [])
      | Some None => (Ok tt, [])
      | Some (Some c) =>
          if negb (is_redis c) then (Ok tt, [])
          else let (o, w) := replay_body (__qualname__ f) {| redis_store := c; stdout := [] |} in
               (o, stdout w)
      end
  end.

(** *** Sequences of calls *)

(** One call of [cache.store]: the random draw and the arguments. *)
Record invocation := { rand_of : N; args_of : list pyval; kwargs_of : kwargs }.

(** The calls are made one after the other; an exception of one call is
    caught by the caller, who goes on with the next. *)
Fixpoint run_calls (calls : list invocation) (self : Cache) : list (outcome pyval) * Cache :=
  match calls with
  | [] => ([], self)
  | i :: rest =>
      let (o, self') := call (store (rand_of i)) (args_of i) (kwargs_of i) self in
      let (os, self'') := run_calls rest self' in
      (o :: os, self'')
  end.

(** What the instrumentation keys hold: a missing counter counts as
    zero and a missing list is empty. *)
Definition counter_at (d : database) (k : bytes) : option Z :=
  match d !! k with
  | None => Some 0%Z
  | Some (RString b) => redis_int b
  | Some (RList _) => None
  end.

Definition list_at (d : database) (k : bytes) : option (list bytes) :=
  match d !! k with
  | None => Some []
  | Some (RList l) => Some l
  | Some (RString _) => None
  end.

(** The instrumentation keys of [Cache.store] hold a count and two
    lists. *)
Definition instrumented (d : database) (n : Z) (ins outs : list bytes) : Prop :=
  counter_at d "Cache.store" = Some n /\
  list_at d "Cache.store:inputs" = Some ins /\
  list_at d "Cache.store:outputs" = Some outs.

(** The values that [store] accepts: text that UTF-8 can carry, bytes,
    integers and floats. *)
Definition supported (v : pyval) : Prop :=
  match v with
  | VStr s => encodable s
  | VBytes _ | VInt _ | VFloat _ => True
  | VNone | VBool _ => False
  end.

(** A call that [store] completes: [data] is bound and of a supported
    type. *)
Definition completes (i : invocation) : Prop :=
  exists data, bind_data (args_of i) (kwargs_of i) = Some data /\ supported data.

(** The lines of [replay]. *)
Definition header_line (fcn_name : text) (n : Z) : text :=
  fcn_name ++ lit " was called " ++ lit (int_repr n) ++ lit " times:".
Definition call_line (fcn_name : text) (io : text * bytes) : text :=
  fcn_name ++ lit "(" ++ lit "*" ++ fst io ++ lit ") -> " ++ bytes_repr (snd io).

(** A str as the client sends it. *)
Definition sent (s : text) : bytes := default EmptyString (utf8_encode s).

(** The text recorded for a call. *)
Definition recorded (args : list pyval) : bytes := sent (str_tuple args).

(** The key that a call of [store] makes from its random draw. *)
Definition key_of (i : invocation) : text := uuid_str (uuid4 (rand_of i)).

(** The database after the instrumentation that comes before the body:
    the arguments are recorded and the call is counted. *)
Definition entered (d : database) (n : Z) (ins : list bytes) (args : list pyval) : database :=
  <["Cache.store"%string := RString (int_repr (n + 1))]>
    (<["Cache.store:inputs"%string := RList (ins ++ [recorded args])]> d).

(** The database after a call that returned: the value is written under
    the new key, and the key is recorded as the output. *)
Definition returned (d : database) (key v : bytes) (outs : list bytes) : database :=
  <["Cache.store:outputs"%string := RList (outs ++ [key])]> (<[key := RString v]> d).

(** *** What a call gives back *)

Definition is_ok {A} (o : outcome A) : bool :=
  match o with
  | Ok _ => true
  | Raise _ => false
  end.



(** The argument of [replay] gives no client that is a [redis.Redis]. *)
Definition no_live_client (fn : option callable) : Prop :=
  match fn with
  | None => True
  | Some f =>
      match __self__ f with
      | Some (Some c) => is_redis c = false
      | _ => True
      end
  end.

(** A step of [replay] that leaves the client as it is and can only add
    lines to what was printed. *)
Definition only_prints {A} (m : M console A) : Prop :=
  forall w, redis_store (snd (m w)) = redis_store w /\
            exists more, stdout (snd (m w)) = stdout w ++ more.


(** *** Sample data, to run the embedding *)

(** Three calls: one with text, one with [None], which the client
    refuses, and one with an integer. *)
Definition sample_calls : list invocation :=
  [ {| rand_of := 7; args_of := [VStr (lit "foo")]; kwargs_of := [] |};
    {| rand_of := 8; args_of := [VNone]; kwargs_of := [] |};
    {| rand_of := 9; args_of := [VInt 5]; kwargs_of := [] |} ].

Definition sample_completed : list invocation :=
  [ {| rand_of := 7; args_of := [VStr (lit "foo")]; kwargs_of := [] |};
    {| rand_of := 9; args_of := []; kwargs_of := [(lit "data", VInt 5)] |} ].

(** A store as three calls, the second of which failed, leave it. *)
Definition sample_client : client :=
  {| is_redis := true;
     db := <["Cache.store"%string := RString "3"]>
             (<["Cache.store:inputs"%string := RList ["('a',)"; "(None,)"; "(5,)"]%string]>
                (<["Cache.store:outputs"%string := RList ["k1"; "k2"]%string]> ∅)) |}.






Definition sample_bad_count : client :=
  {| is_redis := true; db := {["Cache.store"%string := RString "many"]} |}.

Definition sample_list_count : client :=
  {| is_redis := true; db := {["Cache.store"%string := RList ["1"%string]]} |}.

Definition sample_bad_input : client :=
  {| is_redis := true;
     db := <["Cache.store"%string := RString "3"]>
             (<["Cache.store:inputs"%string := RList ["('a',)"%string; pack [255]; "(5,)"%string]]>
                (<["Cache.store:outputs"%string := RList ["k1"; "k2"; "k3"]%string]> ∅)) |}.

Definition sample_later : list invocation :=
  [ {| rand_of := 8; args_of := [VNone]; kwargs_of := [] |};
    {| rand_of := 9; args_of := [VInt 5]; kwargs_of := [] |} ].

(** * Properties *)

Ltac Zify.zify_post_hook ::= Z.to_euclidean_division_equations.

(** Case analysis on every comparison of the goal, closing the cases that
    arithmetic excludes. *)
Ltac split_cmp :=
  repeat match goal with
  | |- context [N.ltb ?a ?b] => destruct (N.ltb_spec a b); try lia
  | |- context [N.leb ?a ?b] => destruct (N.leb_spec a b); try lia
  | |- context [N.eqb ?a ?b] => destruct (N.eqb_spec a b); try lia
  end.

(** ** Octets *)

Lemma unpack_pack l : Forall (fun n => n < 256) l -> unpack (pack l) = l.
Proof.
  unfold unpack, pack. rewrite list_ascii_of_string_of_list_ascii.
  induction 1 as [|n l Hn _ IH]; [done|].
  cbn [map]. rewrite N_ascii_embedding by done. by rewrite IH.
Qed.

Lemma pack_unpack b : pack (unpack b) = b.
Proof.
  unfold unpack, pack. rewrite map_map.
  rewrite (map_ext _ id), map_id by apply ascii_N_embedding.
  apply string_of_list_ascii_of_string.
Qed.

Lemma unpack_bound b : Forall (fun n => n < 256) (unpack b).
Proof. unfold unpack. apply Forall_map, Forall_true. intros a. apply N_ascii_bounded. Qed.

Lemma lit_bound s : Forall (fun n => n < 256) (lit s).
Proof. apply unpack_bound. Qed.

Lemma pack_length l : String.length (pack l) = length l.
Proof.
  unfold pack. induction l as [|n l IH]; [done|].
  cbn [map string_of_list_ascii String.length]. by rewrite IH.
Qed.

(** ** UTF-8 round trip *)

Lemma utf8_decode_encode_cp c b r :
  utf8_encode_cp c = Some b ->
  utf8_decode_list (b ++ r) = cons c <$> utf8_decode_list r.
Proof.
  unfold utf8_encode_cp, is_surrogate.
  destruct (N.ltb_spec c 0x80).
  { intros [= <-]. cbn [app utf8_decode_list]. split_cmp. done. }
  destruct (N.ltb_spec c 0x800).
  { intros [= <-]. cbn [app utf8_decode_list]. unfold is_cont. split_cmp.
    cbn [andb]. do 2 f_equal. lia. }
  destruct (N.ltb_spec c 0x10000).
  { destruct (N.leb_spec 0xD800 c), (N.leb_spec c 0xDFFF); cbn [andb]; try done.
    all: intros [= <-]; cbn [app utf8_decode_list]; unfold is_cont, is_surrogate; split_cmp.
    all: cbn [andb negb]; do 2 f_equal; lia. }
  destruct (N.ltb_spec c 0x110000); [|done].
  intros [= <-]; cbn [app utf8_decode_list]; unfold is_cont; split_cmp.
  cbn [andb negb]; do 2 f_equal; lia.
Qed.

Lemma utf8_encode_cp_bound c b :
  utf8_encode_cp c = Some b -> Forall (fun n => n < 256) b.
Proof.
  unfold utf8_encode_cp, is_surrogate.
  repeat match goal with
  | |- context [N.ltb ?a ?b] => destruct (N.ltb_spec a b)
  | |- context [N.leb ?a ?b] => destruct (N.leb_spec a b)
  end; cbn [andb]; intros [= <-]; repeat constructor; lia.
Qed.

Lemma utf8_decode_encode_list s b :
  utf8_encode_list s = Some b -> utf8_decode_list b = Some s.
Proof.
  revert b. induction s as [|c s IH]; intros b; cbn [utf8_encode_list].
  { by intros [= <-]. }
  destruct (utf8_encode_cp c) as [bc|] eqn:Hc; [|done].
  destruct (utf8_encode_list s) as [bs|]; [|done].
  intros [= <-]. rewrite (utf8_decode_encode_cp _ _ _ Hc), (IH bs); done.
Qed.

Lemma utf8_encode_list_bound s b :
  utf8_encode_list s = Some b -> Forall (fun n => n < 256) b.
Proof.
  revert b. induction s as [|c s IH]; intros b; cbn [utf8_encode_list].
  { intros [= <-]. constructor. }
  destruct (utf8_encode_cp c) as [bc|] eqn:Hc; [|done].
  destruct (utf8_encode_list s) as [bs|]; [|done].
  intros [= <-]. apply Forall_app. split; [by eapply utf8_encode_cp_bound | by apply IH].
Qed.

Lemma utf8_decode_encode s b : utf8_encode s = Some b -> utf8_decode b = Some s.
Proof.
  unfold utf8_encode, utf8_decode.
  destruct (utf8_encode_list s) as [l|] eqn:Hl; [|done].
  intros [= <-]. rewrite unpack_pack by (by eapply utf8_encode_list_bound).
  by apply utf8_decode_encode_list.
Qed.

(** Text without surrogates and below the end of Unicode can be encoded;
    ASCII text is its own encoding. *)
Lemma utf8_encode_list_app s1 s2 b1 b2 :
  utf8_encode_list s1 = Some b1 -> utf8_encode_list s2 = Some b2 ->
  utf8_encode_list (s1 ++ s2) = Some (b1 ++ b2).
Proof.
  revert b1. induction s1 as [|c s1 IH]; intros b1; cbn [utf8_encode_list app].
  { by intros [= <-]. }
  destruct (utf8_encode_cp c) as [bc|]; [|done].
  destruct (utf8_encode_list s1) as [bs|]; [|done].
  intros [= <-] H2. rewrite (IH bs eq_refl H2). by rewrite app_assoc.
Qed.

Lemma encodable_list s : encodable s <-> is_Some (utf8_encode_list s).
Proof. unfold encodable, utf8_encode. by rewrite fmap_is_Some. Qed.

Lemma encodable_app s1 s2 : encodable s1 -> encodable s2 -> encodable (s1 ++ s2).
Proof.
  rewrite !encodable_list. intros [b1 H1] [b2 H2].
  by rewrite (utf8_encode_list_app _ _ _ _ H1 H2).
Qed.

Lemma encodable_low s : Forall (fun c => c < 0xD800) s -> encodable s.
Proof.
  rewrite encodable_list. induction 1 as [|c s Hc _ [b IH]]; [by eexists|].
  cbn [utf8_encode_list]. rewrite IH.
  assert (is_Some (utf8_encode_cp c)) as [bc ->]; [|by eexists].
  unfold utf8_encode_cp, is_surrogate. split_cmp; by eexists.
Qed.

Lemma utf8_encode_ascii s :
  Forall (fun c => c < 0x80) s -> utf8_encode s = Some (pack s).
Proof.
  intros H. unfold utf8_encode.
  assert (utf8_encode_list s = Some s) as ->; [|done].
  induction H as [|c s Hc _ IH]; [done|].
  cbn [utf8_encode_list]. rewrite IH. unfold utf8_encode_cp.
  destruct (N.ltb_spec c 0x80); [done | lia].
Qed.

Lemma encodable_lit s : encodable (lit s).
Proof.
  apply encodable_low. eapply Forall_impl; [apply lit_bound|]. cbn; lia.
Qed.

(** ** Decimal round trip *)

Lemma dec_digits_digit f n : Forall (fun d => 48 <= d <= 57) (dec_digits f n).
Proof.
  revert n. induction f as [|f IH]; intros n; cbn [dec_digits]; [constructor|].
  destruct (N.ltb_spec n 10).
  - repeat constructor; lia.
  - apply Forall_app. split; [apply IH|]. repeat constructor; lia.
Qed.

Lemma dec_digits_nonempty f n : dec_digits (S f) n <> [].
Proof.
  cbn [dec_digits]. destruct (n <? 10); [done|].
  intros E. apply app_eq_nil in E as [_ E]. done.
Qed.

Lemma horner_dec_digits f n : n < 2 ^ N.of_nat f -> horner 0 (dec_digits f n) = n.
Proof.
  revert n. induction f as [|f IH]; intros n.
  { cbn. lia. }
  rewrite Nat2N.inj_succ, N.pow_succ_r'. intros Hn. cbn [dec_digits].
  destruct (N.ltb_spec n 10).
  - cbn. lia.
  - unfold horner in *. rewrite fold_left_app. cbn [fold_left].
    rewrite IH by lia. lia.
Qed.

Lemma N_repr_fuel n : n < 2 ^ N.of_nat (S (N.to_nat (N.log2 n))).
Proof.
  rewrite Nat2N.inj_succ, N2Nat.id.
  destruct (N.eq_dec n 0) as [->|Hn]; [done|].
  apply N.log2_spec. lia.
Qed.

Lemma horner_N_repr n : horner 0 (N_repr n) = n.
Proof. apply horner_dec_digits, N_repr_fuel. Qed.

Lemma digits_value_digits l acc b :
  Forall (fun d => 48 <= d <= 57) l ->
  digits_value acc b l = if b || negb (bool_decide (l = [])) then Some (horner acc l) else None.
Proof.
  intros H. revert acc b. induction H as [|d l Hd _ IH]; intros acc b.
  { cbn. by destruct b. }
  cbn [digits_value]. unfold is_digit.
  destruct (N.leb_spec 48 d), (N.leb_spec d 57); try lia. cbn [andb].
  rewrite IH. cbn [orb]. rewrite orb_true_r. done.
Qed.

Lemma digits_value_N_repr n : digits_value 0 false (N_repr n) = Some n.
Proof.
  rewrite digits_value_digits by apply dec_digits_digit.
  rewrite bool_decide_eq_false_2 by apply dec_digits_nonempty.
  cbn [orb negb]. by rewrite horner_N_repr.
Qed.

Lemma lstrip_head b r : is_space b = false -> lstrip (b :: r) = b :: r.
Proof. intros H. cbn. by rewrite H. Qed.

Lemma strip_no_space l :
  Forall (fun b => is_space b = false) l -> strip l = l.
Proof.
  intros H. unfold strip.
  assert (forall l', Forall (fun b => is_space b = false) l' -> lstrip l' = l') as Hl.
  { intros l' [|b r Hb _]; [done | by apply lstrip_head]. }
  rewrite (Hl l H), Hl, rev_involutive; [done|].
  by apply Forall_rev.
Qed.

Lemma digit_no_space d : 48 <= d <= 57 -> is_space d = false.
Proof. intros H. unfold is_space. by split_cmp. Qed.

Lemma int_of_bytes_repr z : int_of_bytes (int_repr z) = Some z.
Proof.
  unfold int_of_bytes, int_repr.
  destruct (Z.ltb_spec z 0).
  - pose proof (dec_digits_digit (S (N.to_nat (N.log2 (Z.to_N (- z))))) (Z.to_N (- z))) as Hd.
    fold (N_repr (Z.to_N (- z))) in Hd.
    rewrite unpack_pack.
    2:{ constructor; [lia|]. eapply Forall_impl; [exact Hd|]. cbn; lia. }
    rewrite strip_no_space.
    2:{ constructor; [done|]. eapply Forall_impl; [exact Hd|]. apply digit_no_space. }
    cbn [N.eqb Pos.eqb]. rewrite digits_value_N_repr. cbn. f_equal. lia.
  - pose proof (dec_digits_digit (S (N.to_nat (N.log2 (Z.to_N z)))) (Z.to_N z)) as Hd.
    fold (N_repr (Z.to_N z)) in Hd.
    rewrite unpack_pack.
    2:{ eapply Forall_impl; [exact Hd|]. cbn; lia. }
    rewrite strip_no_space.
    2:{ eapply Forall_impl; [exact Hd|]. apply digit_no_space. }
    pose proof (digits_value_N_repr (Z.to_N z)) as Hv.
    destruct (N_repr (Z.to_N z)) as [|s r] eqn:E.
    { by apply dec_digits_nonempty in E. }
    apply Forall_cons in Hd as [Hs _].
    destruct (N.eqb_spec s 45); [lia|]. destruct (N.eqb_spec s 43); [lia|].
    rewrite Hv. cbn. f_equal. lia.
Qed.

Lemma redis_int_repr z : redis_int (int_repr z) = Some z.
Proof. unfold redis_int. by rewrite int_of_bytes_repr, String.eqb_refl. Qed.

(** ** Keys made by [uuid4] *)

Lemma hex_char_ascii d : d < 16 -> hex_char d < 0x80.
Proof. unfold hex_char. intros. split_cmp. Qed.

Lemma hex_digits_length k n : length (hex_digits k n) = k.
Proof.
  revert n. induction k as [|k IH]; intros n; cbn [hex_digits]; [done|].
  rewrite length_app, IH. cbn. lia.
Qed.

Lemma hex_digits_ascii k n : Forall (fun c => c < 0x80) (hex_digits k n).
Proof.
  revert n. induction k as [|k IH]; intros n; cbn [hex_digits]; [constructor|].
  apply Forall_app. split; [apply IH|].
  repeat constructor. apply hex_char_ascii. lia.
Qed.

Lemma uuid_str_length i : length (uuid_str i) = 36%nat.
Proof.
  unfold uuid_str.
  repeat rewrite ?length_app, ?length_take, ?length_drop, ?hex_digits_length.
  cbn. lia.
Qed.

Lemma uuid_str_ascii i : Forall (fun c => c < 0x80) (uuid_str i).
Proof.
  unfold uuid_str.
  repeat first [ apply hex_digits_ascii | apply Forall_take | apply Forall_drop
               | solve [repeat constructor; lia] | apply Forall_app; split ].
Qed.

Lemma encode_uuid_str i : encode (VStr (uuid_str i)) = Ok (pack (uuid_str i)).
Proof. cbn [encode]. by rewrite utf8_encode_ascii by apply uuid_str_ascii. Qed.

Lemma uuid_key_fresh i k :
  String.length k <> 36%nat -> pack (uuid_str i) <> k.
Proof. intros H E. apply H. by rewrite <- E, pack_length, uuid_str_length. Qed.

(** ** What is recorded for a call can always be sent *)

Lemma bytes_escape_bound q c : c < 256 -> Forall (fun n => n < 256) (bytes_escape q c).
Proof.
  intros Hc. unfold bytes_escape, hex_char.
  repeat match goal with
  | |- context [if ?b then _ else _] => destruct b
  end; repeat constructor; lia.
Qed.

Lemma bytes_repr_bound b : Forall (fun n => n < 256) (bytes_repr b).
Proof.
  unfold bytes_repr.
  match goal with
  | |- context [if ?c then 34 else 39] => set (q := if c then 34 else 39)
  end.
  assert (q < 256) as Hq by (subst q; case_match; lia).
  repeat constructor; try done.
  apply Forall_app. split; [|by repeat constructor].
  apply Forall_concat, Forall_map.
  eapply Forall_impl; [apply unpack_bound|]. intros c Hc. by apply bytes_escape_bound.
Qed.

Lemma encodable_bound s : Forall (fun n => n < 256) s -> encodable s.
Proof. intros H. apply encodable_low. eapply Forall_impl; [exact H|]. cbn; lia. Qed.

Lemma py_repr_encodable v : encodable (py_repr v).
Proof.
  destruct v as [|[]| | | |]; cbn [py_repr];
    try apply encodable_lit; [apply str_repr_encodable|].
  apply encodable_bound, bytes_repr_bound.
Qed.

Lemma join_encodable sep l :
  encodable sep -> Forall encodable l -> encodable (join sep l).
Proof.
  intros Hs. induction 1 as [|x l Hx Hl IH]; [by eexists|].
  destruct l as [|y l]; [done|].
  change (encodable (x ++ sep ++ join sep (y :: l))).
  by repeat apply encodable_app.
Qed.

Lemma str_tuple_encodable args : encodable (str_tuple args).
Proof.
  unfold str_tuple.
  destruct args as [|a [|a' args]]; [apply encodable_lit| |].
  - repeat apply encodable_app; try apply encodable_lit. apply py_repr_encodable.
  - apply encodable_app; [apply encodable_lit|].
    apply encodable_app; [|apply encodable_lit].
    apply join_encodable; [apply encodable_lit|].
    apply Forall_map, Forall_true, py_repr_encodable.
Qed.

Lemma encode_str_tuple args : encode (VStr (str_tuple args)) = Ok (recorded args).
Proof.
  cbn [encode]. unfold recorded, sent.
  by destruct (str_tuple_encodable args) as [b ->].
Qed.

Lemma supported_encode v : supported v -> exists b, encode v = Ok b.
Proof.
  destruct v; cbn [supported encode]; try done; try by eexists.
  intros [b ->]. by eexists.
Qed.

(** ** The monad and the client's commands *)

Lemma bind_ok {St A B} (m : M St A) (k : A -> M St B) s a s' :
  m s = (Ok a, s') -> bind m k s = k a s'.
Proof. unfold bind. by intros ->. Qed.

Lemma bind_raise {St A B} (m : M St A) (k : A -> M St B) s e s' :
  m s = (Raise e, s') -> bind m k s = (Raise e, s').
Proof. unfold bind. by intros ->. Qed.

Lemma bind_assoc {St A B C} (m : M St A) (k : A -> M St B) (k' : B -> M St C) s :
  bind (bind m k) k' s = bind m (fun a => bind (k a) k') s.
Proof. unfold bind. by destruct (m s) as [[a|e] s']. Qed.

Lemma on_redis_run {A} (m : M client A) c o c' :
  m c = (o, c') -> on_redis m {| _redis := c |} = (o, {| _redis := c' |}).
Proof. unfold on_redis. cbn [_redis]. by intros ->. Qed.

Lemma redis_set_ok name value k v c :
  encode name = Ok k -> encode value = Ok v ->
  redis_set name value c = (Ok true, with_db c (<[k := RString v]> (db c))).
Proof. intros Hk Hv. unfold redis_set, bind, lift, write. by rewrite Hk, Hv. Qed.

Lemma redis_set_raise name value k e c :
  encode name = Ok k -> encode value = Raise e ->
  redis_set name value c = (Raise e, c).
Proof. intros Hk Hv. unfold redis_set, bind, lift. by rewrite Hk, Hv. Qed.

Lemma redis_get_eq name k c :
  encode name = Ok k -> redis_get name c = (cmd_get k (db c), c).
Proof. intros Hk. unfold redis_get, bind, lift, read. by rewrite Hk. Qed.

Lemma redis_rpush_list name value k v c l :
  encode name = Ok k -> encode value = Ok v -> list_at (db c) k = Some l ->
  redis_rpush name value c
  = (Ok (Z.of_nat (length l) + 1)%Z, with_db c (<[k := RList (l ++ [v])]> (db c))).
Proof.
  intros Hk Hv Hl. unfold redis_rpush, bind, lift, write, cmd_rpush.
  rewrite Hk, Hv. unfold list_at in Hl.
  destruct (db c !! k) as [[b|l']|]; simplify_eq; done.
Qed.

Lemma redis_incr_counter name k c n :
  encode name = Ok k -> counter_at (db c) k = Some n ->
  redis_incr name c
  = (Ok (n + 1)%Z, with_db c (<[k := RString (int_repr (n + 1))]> (db c))).
Proof.
  intros Hk Hn. unfold redis_incr, bind, lift, write, cmd_incr.
  rewrite Hk. unfold counter_at in Hn.
  destruct (db c !! k) as [[b|l']|]; simplify_eq; [|done].
  by rewrite Hn.
Qed.

Lemma counter_at_insert d k n : counter_at (<[k := RString (int_repr n)]> d) k = Some n.
Proof. unfold counter_at. by rewrite lookup_insert_eq, redis_int_repr. Qed.

Lemma counter_at_insert_ne d k k' v : k' <> k -> counter_at (<[k' := v]> d) k = counter_at d k.
Proof. intros H. unfold counter_at. by rewrite lookup_insert_ne. Qed.

Lemma list_at_insert d k l : list_at (<[k := RList l]> d) k = Some l.
Proof. unfold list_at. by rewrite lookup_insert_eq. Qed.

Lemma list_at_insert_ne d k k' v : k' <> k -> list_at (<[k' := v]> d) k = list_at d k.
Proof. intros H. unfold list_at. by rewrite lookup_insert_ne. Qed.

Lemma range_of_all {A} (l : list A) : range_of l 0 (-1) = l.
Proof.
  unfold range_of. cbn [Z.ltb Z.compare].
  destruct (Z.ltb_spec (Z.of_nat (length l) + -1) 0) as [H|H].
  - destruct l; [done | cbn [length] in H; lia].
  - cbn [Z.to_nat]. rewrite drop_0. apply firstn_all2. lia.
Qed.

(** ** One call of [Cache.store] *)

Lemma encode_name : encode (VStr (lit "Cache.store")) = Ok "Cache.store"%string.
Proof. reflexivity. Qed.

Lemma encode_in_key :
  encode (VStr (lit "Cache.store" ++ lit ":inputs")) = Ok "Cache.store:inputs"%string.
Proof. reflexivity. Qed.

Lemma encode_out_key :
  encode (VStr (lit "Cache.store" ++ lit ":outputs")) = Ok "Cache.store:outputs"%string.
Proof. reflexivity. Qed.

Lemma entered_instrumented d n ins outs args :
  instrumented d n ins outs ->
  instrumented (entered d n ins args) (n + 1) (ins ++ [recorded args]) outs.
Proof.
  intros (Hn & Hi & Ho). unfold entered. split_and!.
  - apply counter_at_insert.
  - by rewrite list_at_insert_ne, list_at_insert.
  - by rewrite !list_at_insert_ne.
Qed.

Lemma returned_instrumented d n ins outs i v :
  instrumented d n ins outs ->
  instrumented (returned d (pack (uuid_str i)) v outs) n ins (outs ++ [pack (uuid_str i)]).
Proof.
  intros (Hn & Hi & Ho). unfold returned.
  assert (pack (uuid_str i) <> "Cache.store"%string) by (by apply uuid_key_fresh).
  assert (pack (uuid_str i) <> "Cache.store:inputs"%string) by (by apply uuid_key_fresh).
  split_and!.
  - by rewrite !counter_at_insert_ne.
  - by rewrite !list_at_insert_ne.
  - apply list_at_insert.
Qed.

Lemma returned_lookup d i v outs :
  returned d (pack (uuid_str i)) v outs !! pack (uuid_str i) = Some (RString v).
Proof.
  unfold returned. rewrite lookup_insert_ne, lookup_insert_eq; [done|].
  apply not_eq_sym. by apply uuid_key_fresh.
Qed.

(** The instrumentation before the body, on a live client. *)
Lemma enter_call args d n ins outs :
  instrumented d n ins outs ->
  forall (body : method) kw,
    qualname body = lit "Cache.store" ->
    call (call_history (count_calls body)) args kw
      {| _redis := {| is_redis := true; db := d |} |}
    = (let* output := call body args kw in
       let* live := isinstance_redis in
       (if live
        then on_redis (redis_rpush (VStr (lit "Cache.store" ++ lit ":outputs")) output) ;; ret tt
        else ret tt) ;;
       ret output)
      {| _redis := {| is_redis := true; db := entered d n ins args |} |}.
Proof.
  intros (Hn & Hi & Ho) body kw Hq.
  cbn [call call_history count_calls qualname]. rewrite Hq.
  erewrite bind_ok by reflexivity. cbv beta iota. cbn [_redis is_redis].
  erewrite bind_ok.
  2:{ erewrite bind_ok; [reflexivity|]. apply on_redis_run.
      by apply redis_rpush_list; [apply encode_in_key | apply encode_str_tuple |]. }
  rewrite bind_assoc. erewrite bind_ok by reflexivity. cbv beta iota.
  cbn [_redis is_redis with_db]. rewrite bind_assoc.
  erewrite bind_ok.
  2:{ erewrite bind_ok; [reflexivity|]. apply on_redis_run.
      apply redis_incr_counter; [apply encode_name|].
      cbn [db with_db]. by rewrite counter_at_insert_ne. }
  reflexivity.
Qed.

(** The body of [store], run on any client. *)
Lemma store_body_run rand args kw c :
  call (store_body rand) args kw {| _redis := c |}
  = match bind_data args kw with
    | None => (Raise TypeError, {| _redis := c |})
    | Some data =>
        match encode data with
        | Ok v => (Ok (VStr (uuid_str (uuid4 rand))),
                   {| _redis := with_db c (<[pack (uuid_str (uuid4 rand)) := RString v]> (db c)) |})
        | Raise e => (Raise e, {| _redis := c |})
        end
    end.
Proof.
  cbn [call store_body]. destruct (bind_data args kw) as [data|]; [|done].
  destruct (encode data) as [v|e] eqn:Hv.
  - erewrite bind_ok; [reflexivity|].
    apply on_redis_run. by apply redis_set_ok; [apply encode_uuid_str|].
  - erewrite bind_raise; [reflexivity|].
    apply on_redis_run. by eapply redis_set_raise; [apply encode_uuid_str|].
Qed.

(** When the body of [store] raises, it has not touched the store, and it
    raises on every client. *)
Lemma store_body_raise rand args kw e self self' :
  call (store_body rand) args kw self = (Raise e, self') ->
  forall s, call (store_body rand) args kw s = (Raise e, s).
Proof.
  destruct self as [c]. rewrite store_body_run. intros H [c']. rewrite store_body_run.
  destruct (bind_data args kw) as [data|]; [|by simplify_eq].
  destruct (encode data); by simplify_eq.
Qed.

(** A call whose body returns. *)
Lemma store_call_ok rand args kw data v d n ins outs :
  instrumented d n ins outs ->
  bind_data args kw = Some data ->
  encode data = Ok v ->
  let key := uuid_str (uuid4 rand) in
  call (store rand) args kw {| _redis := {| is_redis := true; db := d |} |}
  = (Ok (VStr key),
     {| _redis := {| is_redis := true;
                     db := returned (entered d n ins args) (pack key) v outs |} |}).
Proof.
  intros Hd Hb Hv key. unfold store.
  rewrite (enter_call _ _ _ _ _ Hd) by done.
  apply (entered_instrumented _ _ _ _ args) in Hd as (Hn & Hi & Ho).
  erewrite bind_ok by (by rewrite store_body_run, Hb, Hv).
  erewrite bind_ok by reflexivity. cbv beta iota. cbn [_redis is_redis with_db db].
  erewrite bind_ok.
  2:{ erewrite bind_ok; [reflexivity|]. apply on_redis_run.
      apply redis_rpush_list; [apply encode_out_key | apply encode_uuid_str |].
      cbn [db with_db]. rewrite list_at_insert_ne; [exact Ho|]. by apply uuid_key_fresh. }
  reflexivity.
Qed.

(** A call whose body raises: the exception goes through both
    wrappers. *)
Lemma store_call_raise rand args kw e self0 self0' d n ins outs :
  instrumented d n ins outs ->
  call (store_body rand) args kw self0 = (Raise e, self0') ->
  call (store rand) args kw {| _redis := {| is_redis := true; db := d |} |}
  = (Raise e, {| _redis := {| is_redis := true; db := entered d n ins args |} |}).
Proof.
  intros Hd Hraise. unfold store.
  rewrite (enter_call _ _ _ _ _ Hd) by done.
  erewrite bind_raise; [done|]. by eapply store_body_raise.
Qed.


(** ** Sequences of calls *)

Lemma empty_instrumented : instrumented ∅ 0 [] [].
Proof. by unfold instrumented, counter_at, list_at; rewrite !lookup_empty. Qed.

(** Whatever the arguments, a call on a live cache is recorded and
    counted, and leaves the instrumentation keys in order. *)
Lemma store_call_any rand args kw d n ins outs :
  instrumented d n ins outs ->
  exists o d' outs',
    call (store rand) args kw {| _redis := {| is_redis := true; db := d |} |}
    = (o, {| _redis := {| is_redis := true; db := d' |} |}) /\
    instrumented d' (n + 1) (ins ++ [recorded args]) outs'.
Proof.
  intros Hd.
  pose proof (store_body_run rand args kw {| is_redis := true; db := d |}) as Hb.
  destruct (bind_data args kw) as [data|] eqn:Hdata;
    [destruct (encode data) as [v|e] eqn:Hv|].
  - do 3 eexists. split; [by eapply store_call_ok|].
    by apply returned_instrumented, entered_instrumented.
  - do 3 eexists. split; [by eapply store_call_raise|]. by apply entered_instrumented.
  - do 3 eexists. split; [by eapply store_call_raise|]. by apply entered_instrumented.
Qed.


Lemma run_calls_completed calls d n ins outs :
  Forall completes calls ->
  instrumented d n ins outs ->
  exists d',
    run_calls calls {| _redis := {| is_redis := true; db := d |} |}
    = (map (fun i => Ok (VStr (key_of i))) calls,
       {| _redis := {| is_redis := true; db := d' |} |}) /\
    instrumented d' (n + Z.of_nat (length calls))
      (ins ++ map (fun i => recorded (args_of i)) calls)
      (outs ++ map (fun i => pack (key_of i)) calls).
Proof.
  intros Hc. revert d n ins outs.
  induction Hc as [|i calls (data & Hdata & Hs) _ IH]; intros d n ins outs Hd.
  { exists d. split; [done|]. by rewrite Z.add_0_r, !app_nil_r. }
  destruct (supported_encode _ Hs) as [v Hv].
  pose proof (store_call_ok (rand_of i) _ _ _ _ _ _ _ _ Hd Hdata Hv) as Hcall.
  cbv zeta in Hcall.
  edestruct IH as (d' & Hrun & Hd').
  { by eapply returned_instrumented, entered_instrumented. }
  exists d'. cbn [run_calls]. rewrite Hcall, Hrun. split; [done|].
  cbn [length map]. rewrite !(cons_middle _ _ (map _ calls)), !app_assoc.
  by replace (n + Z.of_nat (S (length calls)))%Z
    with (n + 1 + Z.of_nat (length calls))%Z by lia.
Qed.

(** ** [get] *)

Lemma get_run key k fn self :
  encode key = Ok k ->
  get key fn self
  = match cmd_get k (db (_redis self)) with
    | Ok data => match fn with Some f => f data self | None => (Ok (of_data data), self) end
    | Raise e => (Raise e, self)
    end.
Proof.
  intros Hk. destruct self as [c]. unfold get.
  destruct (cmd_get k (db c)) as [data|e] eqn:Hget; cbn [_redis]; rewrite Hget.
  - erewrite bind_ok.
    2:{ apply on_redis_run. rewrite (redis_get_eq _ _ _ Hk), Hget. done. }
    by destruct fn.
  - erewrite bind_raise; [done|].
    apply on_redis_run. by rewrite (redis_get_eq _ _ _ Hk), Hget.
Qed.

Lemma get_absent key k fn self :
  encode key = Ok k -> db (_redis self) !! k = None ->
  get key fn self = match fn with Some f => f None self | None => (Ok VNone, self) end.
Proof. intros Hk Hnone. rewrite (get_run _ _ _ _ Hk). unfold cmd_get. by rewrite Hnone. Qed.

Lemma get_present key k v fn self :
  encode key = Ok k -> db (_redis self) !! k = Some (RString v) ->
  get key fn self
  = match fn with Some f => f (Some v) self | None => (Ok (VBytes v), self) end.
Proof. intros Hk Hv. rewrite (get_run _ _ _ _ Hk). unfold cmd_get. by rewrite Hv. Qed.

(** ** [replay] *)

Lemma encode_sent s : encodable s -> encode (VStr s) = Ok (sent s).
Proof. intros [b Hb]. cbn [encode]. unfold sent. by rewrite Hb. Qed.

Lemma on_store_run {A} (m : M client A) c o c' out :
  m c = (o, c') ->
  on_store m {| redis_store := c; stdout := out |} = (o, {| redis_store := c'; stdout := out |}).
Proof. unfold on_store. cbn [redis_store stdout]. by intros ->. Qed.

Lemma redis_lrange_all name k c l :
  encode name = Ok k -> list_at (db c) k = Some l ->
  redis_lrange name 0 (-1) c = (Ok l, c).
Proof.
  intros Hk Hl. unfold redis_lrange, bind, lift, read, cmd_lrange. rewrite Hk.
  unfold list_at in Hl. destruct (db c !! k) as [[b|l']|]; simplify_eq; [|done].
  by rewrite range_of_all.
Qed.

(** Reading the counter the way [replay] does. *)
Lemma read_counter {B} name c n out (k : Z -> M console B) :
  encodable name -> counter_at (db c) (sent name) = Some n ->
  (let* e := on_store (redis_exists (VStr name)) in
   let* fcn_call_count :=
     (if (e =? 0)%Z then ret 0%Z
      else let* raw := on_store (redis_get (VStr name)) in lift (int_ raw)) in
   k fcn_call_count)
    {| redis_store := c; stdout := out |}
  = k n {| redis_store := c; stdout := out |}.
Proof.
  intros Hname Hn. pose proof (encode_sent _ Hname) as Hk.
  erewrite bind_ok.
  2:{ apply on_store_run. unfold redis_exists, bind, lift, read. by rewrite Hk. }
  unfold counter_at, cmd_exists in *.
  destruct (db c !! sent name) as [[b|l]|] eqn:Hdb; simplify_eq; [|done].
  cbn [Z.eqb]. rewrite bind_assoc. erewrite bind_ok.
  2:{ apply on_store_run. rewrite (redis_get_eq _ _ _ Hk). unfold cmd_get. by rewrite Hdb. }
  unfold bind, lift, int_, bytes_int. unfold redis_int in Hn.
  destruct (int_of_bytes b) as [z|]; [|done]. by case_match; simplify_eq.
Qed.

(** The loop over the paired lists: one line for each pair. *)
Lemma replay_loop name c ins outs texts out :
  Forall2 (fun b s => utf8_decode b = Some s) ins texts ->
  for_each (zip ins outs) (fun io =>
    let (fcn_input, fcn_output) := io : bytes * bytes in
    let* decoded := lift (bytes_decode fcn_input) in
    print (name ++ lit "(" ++ lit "*" ++ decoded ++ lit ") -> " ++ bytes_repr fcn_output))
    {| redis_store := c; stdout := out |}
  = (Ok tt, {| redis_store := c; stdout := out ++ map (call_line name) (zip texts outs) |}).
Proof.
  intros H. revert outs out.
  induction H as [|b s ins texts Hb _ IH]; intros outs out.
  { cbn. by rewrite app_nil_r. }
  destruct outs as [|o outs]; [cbn; by rewrite app_nil_r|].
  cbn [zip zip_with for_each map].
  erewrite bind_ok.
  2:{ erewrite bind_ok; [reflexivity|]. unfold lift, bytes_decode. by rewrite Hb. }
  unfold print at 1. cbn [redis_store stdout]. rewrite IH.
  by rewrite <- app_assoc.
Qed.

Lemma replay_body_run name c n ins outs texts :
  encodable name ->
  counter_at (db c) (sent name) = Some n ->
  list_at (db c) (sent (name ++ lit ":inputs")) = Some ins ->
  list_at (db c) (sent (name ++ lit ":outputs")) = Some outs ->
  Forall2 (fun b s => utf8_decode b = Some s) ins texts ->
  replay_body name {| redis_store := c; stdout := [] |}
  = (Ok tt, {| redis_store := c;
               stdout := header_line name n :: map (call_line name) (zip texts outs) |}).
Proof.
  intros Hname Hn Hi Ho Hdec. unfold replay_body.
  lazymatch goal with
  | |- bind _ (fun e => bind _ ?k) _ = _ => rewrite (read_counter name c n [] k Hname Hn)
  end.
  cbv beta. erewrite (bind_ok (print _)) by reflexivity. cbn [redis_store stdout app].
  erewrite bind_ok.
  2:{ apply on_store_run. eapply redis_lrange_all; [|exact Hi].
      apply encode_sent, encodable_app; [done | apply encodable_lit]. }
  erewrite bind_ok.
  2:{ apply on_store_run. eapply redis_lrange_all; [|exact Ho].
      apply encode_sent, encodable_app; [done | apply encodable_lit]. }
  by rewrite (replay_loop _ _ _ _ texts).
Qed.

Lemma replay_run f c n ins outs texts :
  __self__ f = Some (Some c) -> is_redis c = true ->
  encodable (__qualname__ f) ->
  counter_at (db c) (sent (__qualname__ f)) = Some n ->
  list_at (db c) (sent (__qualname__ f ++ lit ":inputs")) = Some ins ->
  list_at (db c) (sent (__qualname__ f ++ lit ":outputs")) = Some outs ->
  Forall2 (fun b s => utf8_decode b = Some s) ins texts ->
  replay (Some f)
  = (Ok tt, header_line (__qualname__ f) n
            :: map (call_line (__qualname__ f)) (zip texts outs)).
Proof.
  intros Hself Hlive Hname Hn Hi Ho Hdec. unfold replay.
  rewrite Hself, Hlive. cbn [negb].
  by rewrite (replay_body_run _ _ _ _ _ _ Hname Hn Hi Ho Hdec).
Qed.

(** * The claims of the specification *)

(** C1, as the code has it.  Text that UTF-8 can encode, bytes and
    integers come back equal when they are stored and fetched at once
    with the decoder of their type: text through [get_str], bytes through
    plain [get], an integer through [get_int].  [store] of text that
    UTF-8 cannot encode raises [UnicodeEncodeError].  A float is kept as
    the bytes of its [repr]: plain [get] returns these bytes, and none of
    [get], [get_str] and [get_int] returns the float. *)
Theorem store_get_round_trip rand self n ins outs :
  is_redis (_redis self) = true ->
  instrumented (db (_redis self)) n ins outs ->
  let key := VStr (uuid_str (uuid4 rand)) in
  (forall s, encodable s ->
     exists self', call (store rand) [VStr s] [] self = (Ok key, self') /\
                   get_str key self' = (Ok (VStr s), self')) /\
  (forall s, ~ encodable s ->
     fst (call (store rand) [VStr s] [] self) = Raise UnicodeEncodeError) /\
  (forall b,
     exists self', call (store rand) [VBytes b] [] self = (Ok key, self') /\
                   get key None self' = (Ok (VBytes b), self')) /\
  (forall z,
     exists self', call (store rand) [VInt z] [] self = (Ok key, self') /\
                   get_int key self' = (Ok (VInt z), self')) /\
  (forall f,
     exists self', call (store rand) [VFloat f] [] self = (Ok key, self') /\
                   get key None self' = (Ok (VBytes (float_repr f)), self') /\
                   fst (get_str key self') <> Ok (VFloat f) /\
                   fst (get_int key self') <> Ok (VFloat f)).
Proof.
  destruct self as [[live d]]. cbn [_redis is_redis db]. intros -> Hd.
  set (key := VStr (uuid_str (uuid4 rand))).
  assert (forall data v,
    encode data = Ok v ->
    exists self', call (store rand) [data] [] {| _redis := {| is_redis := true; db := d |} |}
                  = (Ok key, self') /\
                  forall fn, get key fn self'
                  = match fn with
                    | Some g => g (Some v) self'
                    | None => (Ok (VBytes v), self')
                    end)
    as Hstep.
  { intros data v Hv. eexists. split.
    - by apply (store_call_ok rand [data] [] data v d n ins outs).
    - intros fn. apply get_present with (k := pack (uuid_str (uuid4 rand)));
        [apply encode_uuid_str|].
      cbn [_redis db]. apply returned_lookup. }
  unfold get_str, get_int. split_and!.
  - intros s [b Hb].
    destruct (Hstep (VStr s) b) as (self' & Hcall & Hget).
    { cbn [encode]. by rewrite Hb. }
    exists self'. rewrite Hcall, Hget. split; [done|].
    unfold lift. cbn [decode_utf8]. unfold bytes_decode.
    by rewrite (utf8_decode_encode _ _ Hb).
  - intros s Hs.
    pose proof (store_body_run rand [VStr s] [] {| is_redis := true; db := d |}) as Hb.
    cbn [bind_data encode] in Hb.
    destruct (utf8_encode s) as [b|] eqn:Hsb; [destruct Hs; by eexists|].
    by rewrite (store_call_raise _ _ _ _ _ _ _ _ _ _ Hd Hb).
  - intros b. destruct (Hstep (VBytes b) b eq_refl) as (self' & Hcall & Hget).
    exists self'. by rewrite Hcall, Hget.
  - intros z. destruct (Hstep (VInt z) (int_repr z) eq_refl) as (self' & Hcall & Hget).
    exists self'. rewrite Hcall, Hget. split; [done|].
    unfold lift, to_int, int_, bytes_int. by rewrite int_of_bytes_repr.
  - intros f.
    destruct (Hstep (VFloat f) (float_repr f) eq_refl) as (self' & Hcall & Hget).
    exists self'. rewrite Hcall, !Hget. split_and!; try done.
    + unfold lift. cbn [fst decode_utf8]. by destruct (bytes_decode (float_repr f)).
    + unfold lift, to_int. cbn [fst]. by destruct (int_ (Some (float_repr f))).
Qed.

(** C2, as the code has it.  A call of [store] that completes appends
    one entry to the inputs list and one to the outputs list, the latter
    being its encoded return value, so that lists of equal length before
    the call are of equal length after it.  After N calls on a new cache,
    all of which completed, both lists have N entries, and the output
    recorded at each position is the encoded return value of the call at
    that position. *)
Theorem call_history_parallel :
  (forall i self n ins outs,
     is_redis (_redis self) = true ->
     instrumented (db (_redis self)) n ins outs ->
     completes i ->
     exists v b self',
       call (store (rand_of i)) (args_of i) (kwargs_of i) self = (Ok v, self') /\
       encode v = Ok b /\
       list_at (db (_redis self')) "Cache.store:inputs" = Some (ins ++ [recorded (args_of i)]) /\
       list_at (db (_redis self')) "Cache.store:outputs" = Some (outs ++ [b]) /\
       (length ins = length outs ->
        length (ins ++ [recorded (args_of i)]) = length (outs ++ [b]))) /\
  (forall server calls,
     Forall completes calls ->
     exists rets self ins outs,
       run_calls calls (__init__ server) = (rets, self) /\
       list_at (db (_redis self)) "Cache.store:inputs" = Some ins /\
       list_at (db (_redis self)) "Cache.store:outputs" = Some outs /\
       length rets = length calls /\
       length ins = length calls /\
       length outs = length calls /\
       forall i, (i < length calls)%nat ->
         exists v b, rets !! i = Some (Ok v) /\ outs !! i = Some b /\ encode v = Ok b).
Proof.
  split.
  - intros i [[live d]] n ins outs. cbn [_redis is_redis db].
    intros -> Hd (data & Hdata & Hs).
    destruct (supported_encode _ Hs) as [v Hv].
    pose proof (store_call_ok (rand_of i) _ _ _ _ _ _ _ _ Hd Hdata Hv) as Hcall.
    cbv zeta in Hcall.
    apply (entered_instrumented _ _ _ _ (args_of i)) in Hd.
    apply (returned_instrumented _ _ _ _ (uuid4 (rand_of i)) v) in Hd as (_ & Hi & Ho).
    do 3 eexists. split; [exact Hcall|]. split; [apply encode_uuid_str|].
    cbn [_redis db]. split; [exact Hi|]. split; [exact Ho|].
    intros Hlen. rewrite !length_app, Hlen. done.
  - intros server calls Hc.
    destruct (run_calls_completed calls ∅ 0 [] [] Hc empty_instrumented)
      as (d' & Hrun & _ & Hi & Ho).
    do 4 eexists. split; [exact Hrun|]. cbn [_redis db].
    split; [exact Hi|]. split; [exact Ho|].
    rewrite !app_nil_l, !length_map. split_and!; try done.
    intros i Hlt. destruct (lookup_lt_is_Some_2 calls i Hlt) as [c Hci].
    exists (VStr (key_of c)), (pack (key_of c)).
    rewrite !list_lookup_fmap, Hci. split_and!; try done. apply encode_uuid_str.
Qed.


(** C4, as the code has it.  When the key is absent and a transform
    is given, [get] applies the transform to [None]: the call ends as the
    transform ends on [None], returning what it returns and raising what
    it raises. *)
Theorem get_absent_applies_transform key k fn self :
  encode key = Ok k ->
  db (_redis self) !! k = None ->
  get key (Some fn) self = fn None self.
Proof. intros Hk Hnone. by rewrite (get_absent _ _ _ _ Hk Hnone). Qed.

(** C5. The constructor empties the store: whatever the server held, a
    read of any key right after construction finds nothing. *)
Theorem init_flushes server key k :
  encode key = Ok k ->
  let self := __init__ server in
  db (_redis self) = ∅ /\
  get key None self = (Ok VNone, self) /\
  redis_exists key (_redis self) = (Ok 0%Z, _redis self) /\
  redis_lrange key 0 (-1) (_redis self) = (Ok [], _redis self).
Proof.
  intros Hk self. split_and!.
  - done.
  - by apply get_absent with (k := k).
  - unfold redis_exists, bind, lift, read. by rewrite Hk.
  - by apply redis_lrange_all with (k := k).
Qed.

(** C6. With no transform, [get] of an absent key returns [None] and
    does not raise. *)
Theorem get_absent_none key k self :
  encode key = Ok k ->
  db (_redis self) !! k = None ->
  get key None self = (Ok VNone, self).
Proof. intros Hk Hnone. by rewrite (get_absent _ _ _ _ Hk Hnone). Qed.

(** C7. [replay] prints the count and then, for each pair of the inputs
    list and the outputs list taken position by position, one line: the
    name, the starred arguments in parentheses, an arrow and the output.
    When the lists differ in length, the lines stop with the shorter
    one. *)
Theorem replay_transcript f c n ins outs texts :
  __self__ f = Some (Some c) -> is_redis c = true ->
  encodable (__qualname__ f) ->
  counter_at (db c) (sent (__qualname__ f)) = Some n ->
  list_at (db c) (sent (__qualname__ f ++ lit ":inputs")) = Some ins ->
  list_at (db c) (sent (__qualname__ f ++ lit ":outputs")) = Some outs ->
  Forall2 (fun b s => utf8_decode b = Some s) ins texts ->
  exists lines,
    replay (Some f) = (Ok tt, header_line (__qualname__ f) n :: lines) /\
    lines = map (fun io => __qualname__ f ++ lit "(" ++ lit "*" ++ fst io ++ lit ") -> "
                           ++ bytes_repr (snd io)) (zip texts outs) /\
    length lines = min (length ins) (length outs).
Proof.
  intros Hself Hlive Hname Hn Hi Ho Hdec. eexists. split_and!.
  - by apply (replay_run f c n ins outs texts).
  - done.
  - rewrite length_map, length_zip_with. by rewrite (Forall2_length _ _ _ Hdec).
Qed.

(** C8. When nothing was recorded for the operation (no counter key, no
    history lists), [replay] prints a count of zero and no other line. *)
Theorem replay_no_calls f c :
  __self__ f = Some (Some c) -> is_redis c = true ->
  encodable (__qualname__ f) ->
  db c !! sent (__qualname__ f) = None ->
  db c !! sent (__qualname__ f ++ lit ":inputs") = None ->
  db c !! sent (__qualname__ f ++ lit ":outputs") = None ->
  replay (Some f) = (Ok tt, [__qualname__ f ++ lit " was called 0 times:"]).
Proof.
  intros Hself Hlive Hname Hn Hi Ho.
  rewrite (replay_run f c 0 [] [] []); try done.
  - unfold counter_at. by rewrite Hn.
  - unfold list_at. by rewrite Hi.
  - unfold list_at. by rewrite Ho.
Qed.


(** C10. On an absent key [get_str] and [get_int] raise: their transform
    is applied to [None]. *)
Theorem typed_getters_raise_on_absent key k self :
  encode key = Ok k ->
  db (_redis self) !! k = None ->
  get_str key self = (Raise AttributeError, self) /\
  get_int key self = (Raise TypeError, self).
Proof.
  intros Hk Hnone. unfold get_str, get_int.
  by rewrite !(get_absent _ _ _ _ Hk Hnone).
Qed.

(** * Further properties of the code *)

(** ** The decorators on any method *)







(** ** [store] and [get] *)

Lemma pack_inj l1 l2 :
  Forall (fun n => n < 256) l1 -> Forall (fun n => n < 256) l2 ->
  pack l1 = pack l2 -> l1 = l2.
Proof. intros H1 H2 E. rewrite <- (unpack_pack l1), <- (unpack_pack l2), E; done. Qed.

Lemma uuid_key_inj i j : pack (uuid_str i) = pack (uuid_str j) -> uuid_str i = uuid_str j.
Proof.
  apply pack_inj; (eapply Forall_impl; [apply uuid_str_ascii|]); cbn; lia.
Qed.

(** A call of [store] touches the three instrumentation keys and its own
    new key, and nothing else. *)
Lemma store_call_frame rand args kw d n ins outs k :
  instrumented d n ins outs ->
  k <> "Cache.store"%string -> k <> "Cache.store:inputs"%string ->
  k <> "Cache.store:outputs"%string -> k <> pack (uuid_str (uuid4 rand)) ->
  db (_redis (snd (call (store rand) args kw
                     {| _redis := {| is_redis := true; db := d |} |}))) !! k
  = d !! k.
Proof.
  intros Hd H1 H2 H3 H4.
  pose proof (store_body_run rand args kw {| is_redis := true; db := d |}) as Hb.
  destruct (bind_data args kw) as [data|] eqn:Hdata;
    [destruct (encode data) as [v|e] eqn:Hv|].
  - rewrite (store_call_ok _ _ _ _ _ _ _ _ _ Hd Hdata Hv). cbn [snd _redis db].
    unfold returned, entered. by rewrite !lookup_insert_ne.
  - rewrite (store_call_raise _ _ _ _ _ _ _ _ _ _ Hd Hb). cbn [snd _redis db].
    unfold entered. by rewrite !lookup_insert_ne.
  - rewrite (store_call_raise _ _ _ _ _ _ _ _ _ _ Hd Hb). cbn [snd _redis db].
    unfold entered. by rewrite !lookup_insert_ne.
Qed.

Lemma run_calls_frame calls d n ins outs k :
  instrumented d n ins outs ->
  k <> "Cache.store"%string -> k <> "Cache.store:inputs"%string ->
  k <> "Cache.store:outputs"%string ->
  Forall (fun i => pack (key_of i) <> k) calls ->
  db (_redis (snd (run_calls calls {| _redis := {| is_redis := true; db := d |} |}))) !! k
  = d !! k.
Proof.
  intros Hd H1 H2 H3 Hk. revert d n ins outs Hd.
  induction Hk as [|i calls Hi _ IH]; intros d n ins outs Hd; [done|].
  pose proof (store_call_frame (rand_of i) (args_of i) (kwargs_of i) _ _ _ _ k
                Hd H1 H2 H3 (not_eq_sym Hi)) as Hframe.
  destruct (store_call_any (rand_of i) (args_of i) (kwargs_of i) _ _ _ _ Hd)
    as (o & d1 & outs1 & Hcall & Hd1).
  cbn [run_calls]. rewrite Hcall in *. cbn [snd _redis db] in Hframe.
  specialize (IH _ _ _ _ Hd1).
  destruct (run_calls calls _) as [os self2]. cbn [snd] in *. by rewrite IH.
Qed.

(** X6. Calling [store] with [data] given by name stores the value like a
    call by position, but the history records the empty tuple: keyword
    arguments are not part of what [call_history] writes down. *)
Theorem keyword_argument_not_recorded rand data v self n ins outs :
  is_redis (_redis self) = true ->
  instrumented (db (_redis self)) n ins outs ->
  encode data = Ok v ->
  let key := uuid_str (uuid4 rand) in
  exists self',
    call (store rand) [] [(lit "data", data)] self = (Ok (VStr key), self') /\
    db (_redis self') !! pack key = Some (RString v) /\
    list_at (db (_redis self')) "Cache.store:inputs" = Some (ins ++ ["()"%string]).
Proof.
  destruct self as [[live d]]. cbn [_redis is_redis db]. intros -> Hd Hv.
  eexists. split; [|split].
  - apply (store_call_ok rand [] [(lit "data", data)] data v d n ins outs Hd); [|exact Hv].
    cbn [bind_data]. by rewrite decide_True.
  - cbn [_redis db]. apply returned_lookup.
  - cbn [_redis db].
    apply (entered_instrumented _ _ _ _ []) in Hd.
    by apply (returned_instrumented _ _ _ _ (uuid4 rand) v) in Hd as (_ & Hi & _).
Qed.

(** X7. A stored value stays: after any further calls of [store],
    completed or not, whose keys differ from its key, plain [get] still
    returns its bytes. *)
Theorem stored_value_persists rand data v later self n ins outs :
  is_redis (_redis self) = true ->
  instrumented (db (_redis self)) n ins outs ->
  encode data = Ok v ->
  Forall (fun i => key_of i <> uuid_str (uuid4 rand)) later ->
  let key := VStr (uuid_str (uuid4 rand)) in
  exists self1,
    call (store rand) [data] [] self = (Ok key, self1) /\
    get key None (snd (run_calls later self1))
    = (Ok (VBytes v), snd (run_calls later self1)).
Proof.
  destruct self as [[live d]]. cbn [_redis is_redis db]. intros -> Hd Hv Hlater.
  eexists. split; [by apply (store_call_ok rand [data] [] data v d n ins outs)|].
  apply (get_present _ (pack (uuid_str (uuid4 rand))) v None); [apply encode_uuid_str|].
  erewrite run_calls_frame.
  - apply returned_lookup.
  - by eapply returned_instrumented, entered_instrumented.
  - by apply uuid_key_fresh.
  - by apply uuid_key_fresh.
  - by apply uuid_key_fresh.
  - eapply Forall_impl; [exact Hlater|]. intros i Hi E. by apply Hi, uuid_key_inj.
Qed.

(** X8. [store] does not look whether its new key is in use: when two
    calls draw the same key, both return it and the second value replaces
    the first. *)
Theorem same_key_overwrites rand data1 data2 v1 v2 self n ins outs :
  is_redis (_redis self) = true ->
  instrumented (db (_redis self)) n ins outs ->
  encode data1 = Ok v1 ->
  encode data2 = Ok v2 ->
  let key := VStr (uuid_str (uuid4 rand)) in
  exists self1 self2,
    call (store rand) [data1] [] self = (Ok key, self1) /\
    call (store rand) [data2] [] self1 = (Ok key, self2) /\
    get key None self2 = (Ok (VBytes v2), self2).
Proof.
  destruct self as [[live d]]. cbn [_redis is_redis db]. intros -> Hd Hv1 Hv2.
  do 2 eexists. split_and!.
  - by apply (store_call_ok rand [data1] [] data1 v1 d n ins outs).
  - eapply (store_call_ok rand [data2] [] data2 v2); [|done|done].
    by eapply returned_instrumented, entered_instrumented.
  - apply (get_present _ (pack (uuid_str (uuid4 rand))) v2 None); [apply encode_uuid_str|].
    cbn [_redis db]. apply returned_lookup.
Qed.

Lemma utf8_decode_ascii l :
  Forall (fun c => c < 0x80) l -> utf8_decode (pack l) = Some l.
Proof. intros H. by apply utf8_decode_encode, utf8_encode_ascii. Qed.

Lemma int_repr_ascii z : exists l, int_repr z = pack l /\ Forall (fun c => c < 0x80) l.
Proof.
  unfold int_repr, N_repr. destruct (z <? 0)%Z; eexists; (split; [reflexivity|]).
  - constructor; [lia|]. eapply Forall_impl; [apply dec_digits_digit|]. cbn; lia.
  - eapply Forall_impl; [apply dec_digits_digit|]. cbn; lia.
Qed.

(** X9. The store keeps bytes, not types: after [store], plain [get]
    returns the bytes that the client sent for the value, whatever its
    type was; an integer read with [get_str] comes back as the text of
    its decimal digits. *)
Theorem stored_value_is_bytes rand self n ins outs :
  is_redis (_redis self) = true ->
  instrumented (db (_redis self)) n ins outs ->
  let key := VStr (uuid_str (uuid4 rand)) in
  (forall data v, encode data = Ok v ->
     exists self', call (store rand) [data] [] self = (Ok key, self') /\
                   get key None self' = (Ok (VBytes v), self')) /\
  (forall z,
     exists self', call (store rand) [VInt z] [] self = (Ok key, self') /\
                   get key None self' = (Ok (VBytes (int_repr z)), self') /\
                   get_str key self' = (Ok (VStr (lit (int_repr z))), self')).
Proof.
  destruct self as [[live d]]. cbn [_redis is_redis db]. intros -> Hd.
  set (key := VStr (uuid_str (uuid4 rand))).
  assert (forall data v, encode data = Ok v ->
    exists self', call (store rand) [data] [] {| _redis := {| is_redis := true; db := d |} |}
                  = (Ok key, self') /\
                  forall fn, get key fn self'
                  = match fn with
                    | Some g => g (Some v) self'
                    | None => (Ok (VBytes v), self')
                    end)
    as Hstep.
  { intros data v Hv. eexists. split.
    - by apply (store_call_ok rand [data] [] data v d n ins outs).
    - intros fn. apply get_present with (k := pack (uuid_str (uuid4 rand)));
        [apply encode_uuid_str|].
      cbn [_redis db]. apply returned_lookup. }
  split.
  - intros data v Hv. destruct (Hstep data v Hv) as (self' & Hcall & Hget).
    exists self'. by rewrite Hcall, (Hget None).
  - intros z. destruct (Hstep (VInt z) (int_repr z) eq_refl) as (self' & Hcall & Hget).
    exists self'. unfold get_str. rewrite Hcall, !Hget.
    split_and!; try done. unfold lift. cbn [decode_utf8]. unfold bytes_decode.
    destruct (int_repr_ascii z) as (l & -> & Hl).
    rewrite (utf8_decode_ascii _ Hl). cbn [outcome_map]. do 3 f_equal.
    symmetry. apply unpack_pack. eapply Forall_impl; [exact Hl|]. cbn; lia.
Qed.

(** X10. [get] itself only reads.  With no transform, and through
    [get_str] and [get_int], the cache is left as it was whether the call
    returns or raises.  With a transform of the caller, [get] either
    raises before it calls the transform, leaving the cache as it was, or
    ends as the transform ends when run on the cache as it was: whatever
    is written is written by the transform. *)
Theorem get_leaves_store key self :
  snd (get key None self) = self /\
  snd (get_str key self) = self /\
  snd (get_int key self) = self /\
  forall fn,
    (exists data, get key (Some fn) self = fn data self) \/
    (exists e, get key (Some fn) self = (Raise e, self)).
Proof.
  assert (forall fn,
    (exists data, get key fn self
                  = match fn with
                    | Some g => g data self
                    | None => (Ok (of_data data), self)
                    end) \/
    (exists e, get key fn self = (Raise e, self))) as H.
  { intros fn. destruct self as [c]. unfold get.
    destruct (encode key) as [k|e] eqn:Hk.
    - destruct (cmd_get k (db c)) as [data|e] eqn:Hget.
      + left. exists data. erewrite bind_ok; [by destruct fn|].
        apply on_redis_run. by rewrite (redis_get_eq _ _ _ Hk), Hget.
      + right. exists e. erewrite bind_raise; [done|].
        apply on_redis_run. by rewrite (redis_get_eq _ _ _ Hk), Hget.
    - right. exists e. erewrite bind_raise; [done|].
      apply on_redis_run. unfold redis_get, bind, lift. by rewrite Hk. }
  unfold get_str, get_int. split_and!.
  - by destruct (H None) as [[data ->]|[e ->]].
  - destruct (H (Some (fun x => lift (decode_utf8 x)))) as [[data ->]|[e ->]]; done.
  - destruct (H (Some (fun x => lift (to_int x)))) as [[data ->]|[e ->]]; done.
  - intros fn. apply (H (Some fn)).
Qed.

(** ** The history over any sequence of calls *)





(** ** [replay] *)



Lemma zip_app_short {A B} (l1 l1' : list A) (l2 : list B) :
  (length l2 <= length l1)%nat -> zip (l1 ++ l1') l2 = zip l1 l2.
Proof.
  revert l2. induction l1 as [|x l1 IH]; intros [|y l2] Hlen; cbn in *; try done; try lia.
  - by destruct l1'.
  - f_equal. apply IH. lia.
Qed.

Lemma replay_loop_bad name c ins bad rest outs texts out :
  Forall2 (fun b s => utf8_decode b = Some s) ins texts ->
  utf8_decode bad = None ->
  (length ins < length outs)%nat ->
  for_each (zip (ins ++ bad :: rest) outs) (fun io =>
    let (fcn_input, fcn_output) := io : bytes * bytes in
    let* decoded := lift (bytes_decode fcn_input) in
    print (name ++ lit "(" ++ lit "*" ++ decoded ++ lit ") -> " ++ bytes_repr fcn_output))
    {| redis_store := c; stdout := out |}
  = (Raise UnicodeDecodeError,
     {| redis_store := c; stdout := out ++ map (call_line name) (zip texts outs) |}).
Proof.
  intros H Hbad. revert outs out.
  induction H as [|b s ins texts Hb _ IH]; intros outs out Hlen.
  { destruct outs as [|o outs]; [cbn in Hlen; lia|].
    cbn [app zip zip_with for_each map]. rewrite app_nil_r.
    erewrite bind_raise; [reflexivity|].
    erewrite bind_raise; [reflexivity|]. unfold lift, bytes_decode. by rewrite Hbad. }
  destruct outs as [|o outs]; [cbn in Hlen; lia|].
  cbn [app zip zip_with for_each map].
  erewrite bind_ok.
  2:{ erewrite bind_ok; [reflexivity|]. unfold lift, bytes_decode. by rewrite Hb. }
  unfold print at 1. cbn [redis_store stdout]. rewrite IH by (cbn in Hlen; lia).
  by rewrite <- app_assoc.
Qed.

(** X13. The inputs are decoded one by one inside the loop.  When an
    input that is paired with an output is not UTF-8, [replay] raises
    [UnicodeDecodeError] after it has printed the count and the lines of
    the pairs before it; an input that has no output to be paired with is
    never decoded. *)
Theorem replay_undecodable_input f c n ins bad rest outs texts :
  __self__ f = Some (Some c) -> is_redis c = true ->
  encodable (__qualname__ f) ->
  counter_at (db c) (sent (__qualname__ f)) = Some n ->
  list_at (db c) (sent (__qualname__ f ++ lit ":inputs")) = Some (ins ++ bad :: rest) ->
  list_at (db c) (sent (__qualname__ f ++ lit ":outputs")) = Some outs ->
  Forall2 (fun b s => utf8_decode b = Some s) ins texts ->
  utf8_decode bad = None ->
  replay (Some f)
  = (if decide (length ins < length outs)%nat then Raise UnicodeDecodeError else Ok tt,
     header_line (__qualname__ f) n :: map (call_line (__qualname__ f)) (zip texts outs)).
Proof.
  intros Hself Hlive Hname Hn Hi Ho Hdec Hbad. unfold replay.
  rewrite Hself, Hlive. cbn [negb]. unfold replay_body.
  lazymatch goal with
  | |- context [bind _ (fun e => bind _ ?k) _] =>
      rewrite (read_counter (__qualname__ f) c n [] k Hname Hn)
  end.
  cbv beta. erewrite (bind_ok (print _)) by reflexivity. cbn [redis_store stdout app].
  erewrite bind_ok.
  2:{ apply on_store_run. eapply redis_lrange_all; [|exact Hi].
      apply encode_sent, encodable_app; [done | apply encodable_lit]. }
  erewrite bind_ok.
  2:{ apply on_store_run. eapply redis_lrange_all; [|exact Ho].
      apply encode_sent, encodable_app; [done | apply encodable_lit]. }
  case_decide as Hlen.
  - by rewrite (replay_loop_bad _ _ _ _ _ _ texts).
  - rewrite zip_app_short by lia. by rewrite (replay_loop _ _ _ _ texts).
Qed.

(** X14. The count is read before anything is printed.  When the
    counter key holds bytes that [int] does not accept, [replay] raises
    [ValueError]; when it holds a list, the client's [get] raises; in both
    cases nothing has been printed. *)
Theorem replay_unreadable_counter f c :
  __self__ f = Some (Some c) -> is_redis c = true ->
  encodable (__qualname__ f) ->
  (forall b, db c !! sent (__qualname__ f) = Some (RString b) ->
             int_of_bytes b = None ->
             replay (Some f) = (Raise ValueError, [])) /\
  (forall l, db c !! sent (__qualname__ f) = Some (RList l) ->
             replay (Some f) = (Raise ResponseError, [])).
Proof.
  intros Hself Hlive Hname. pose proof (encode_sent _ Hname) as Hk.
  assert (forall v, db c !! sent (__qualname__ f) = Some v ->
    on_store (redis_exists (VStr (__qualname__ f))) {| redis_store := c; stdout := [] |}
    = (Ok 1%Z, {| redis_store := c; stdout := [] |})) as Hex.
  { intros v Hv. apply on_store_run. unfold redis_exists, bind, lift, read.
    rewrite Hk. unfold cmd_exists. by rewrite Hv. }
  split.
  - intros b Hb Hint. unfold replay. rewrite Hself, Hlive. cbn [negb]. unfold replay_body.
    erewrite bind_ok by (by eapply Hex). cbn [Z.eqb].
    erewrite bind_raise; cycle 1.
    { erewrite bind_ok.
      2:{ apply on_store_run. rewrite (redis_get_eq _ _ _ Hk). unfold cmd_get. by rewrite Hb. }
      unfold lift, int_, bytes_int. by rewrite Hint. }
    reflexivity.
  - intros l Hl. unfold replay. rewrite Hself, Hlive. cbn [negb]. unfold replay_body.
    erewrite bind_ok by (by eapply Hex). cbn [Z.eqb].
    erewrite bind_raise; cycle 1.
    { erewrite bind_raise; [reflexivity|].
      apply on_store_run. rewrite (redis_get_eq _ _ _ Hk). unfold cmd_get. by rewrite Hl. }
    reflexivity.
Qed.

Lemma only_prints_ret {A} (a : A) : only_prints (ret a).
Proof. intros w. split; [done|]. exists []. by rewrite app_nil_r. Qed.

Lemma only_prints_lift {A} (o : outcome A) : only_prints (lift o).
Proof. intros w. split; [done|]. exists []. by rewrite app_nil_r. Qed.

Lemma only_prints_print line : only_prints (print line).
Proof. intros w. split; [done|]. by exists [line]. Qed.

Lemma only_prints_bind {A B} (m : M console A) (k : A -> M console B) :
  only_prints m -> (forall a, only_prints (k a)) -> only_prints (bind m k).
Proof.
  intros Hm Hk w. unfold bind. destruct (Hm w) as [Hc [more Hmore]].
  destruct (m w) as [[a|e] w1]; cbn [snd] in *.
  - destruct (Hk a w1) as [Hc' [more' Hmore']]. split; [congruence|].
    exists (more ++ more'). by rewrite Hmore', Hmore, app_assoc.
  - split; [done|]. by exists more.
Qed.

Lemma only_prints_on_store {A} (m : M client A) :
  (forall c, snd (m c) = c) -> only_prints (on_store m).
Proof.
  intros Hm w. unfold on_store. specialize (Hm (redis_store w)).
  destruct (m (redis_store w)) as [o c]. cbn [snd redis_store stdout] in *.
  split; [done|]. exists []. by rewrite app_nil_r.
Qed.

Lemma only_prints_for_each {A} (l : list A) (body : A -> M console unit) :
  (forall x, only_prints (body x)) -> only_prints (for_each l body).
Proof.
  intros Hb. induction l as [|x l IH]; cbn [for_each]; [apply only_prints_ret|].
  apply only_prints_bind; [apply Hb | done].
Qed.

Lemma redis_exists_reads name c : snd (redis_exists name c) = c.
Proof. unfold redis_exists, read, lift, bind. by destruct (encode name). Qed.

Lemma redis_get_reads name c : snd (redis_get name c) = c.
Proof. unfold redis_get, read, lift, bind. by destruct (encode name). Qed.

Lemma redis_lrange_reads name start stop c : snd (redis_lrange name start stop c) = c.
Proof. unfold redis_lrange, read, lift, bind. by destruct (encode name). Qed.

Lemma replay_loop_only_prints name (l : list (bytes * bytes)) :
  only_prints (for_each l (fun io =>
    let (fcn_input, fcn_output) := io : bytes * bytes in
    let* decoded := lift (bytes_decode fcn_input) in
    print (name ++ lit "(" ++ lit "*" ++ decoded ++ lit ") -> " ++ bytes_repr fcn_output))).
Proof.
  apply only_prints_for_each. intros [i o].
  apply only_prints_bind; [apply only_prints_lift|]. intros s. apply only_prints_print.
Qed.

(** X15. [replay] only reads the store: whatever the store holds and
    however [replay] ends, the client is left as it was, and what had been
    printed before stays printed. *)
Theorem replay_only_reads fcn_name w :
  redis_store (snd (replay_body fcn_name w)) = redis_store w /\
  exists more, stdout (snd (replay_body fcn_name w)) = stdout w ++ more.
Proof.
  revert w. change (only_prints (replay_body fcn_name)). unfold replay_body.
  apply only_prints_bind; [apply only_prints_on_store, redis_exists_reads|]. intros n.
  apply only_prints_bind.
  { destruct (n =? 0)%Z; [apply only_prints_ret|].
    apply only_prints_bind; [apply only_prints_on_store, redis_get_reads|].
    intros raw. apply only_prints_lift. }
  intros cnt. apply only_prints_bind; [apply only_prints_print|]. intros _.
  apply only_prints_bind; [apply only_prints_on_store, redis_lrange_reads|]. intros ins.
  apply only_prints_bind; [apply only_prints_on_store, redis_lrange_reads|]. intros outs.
  apply replay_loop_only_prints.
Qed.

Lemma on_store_stdout {A} (m : M client A) w : stdout (snd (on_store m w)) = stdout w.
Proof. unfold on_store. by destruct (m (redis_store w)). Qed.

(** When [replay] gets through, the line with the count has been
    printed. *)
Lemma replay_body_prints_header name w w' :
  replay_body name w = (Ok tt, w') ->
  exists n more, stdout w' = stdout w ++ header_line name n :: more.
Proof.
  unfold replay_body. unfold bind at 1.
  pose proof (on_store_stdout (redis_exists (VStr name)) w) as H1.
  destruct (on_store (redis_exists (VStr name)) w) as [[e|e] w1]; [|done].
  cbn [snd] in H1. unfold bind at 1.
  match goal with
  | |- context [(if (e =? 0)%Z then ?a else ?b) w1] =>
      assert (forall cnt w2, (if (e =? 0)%Z then a else b) w1 = (Ok cnt, w2) ->
                             stdout w2 = stdout w1) as H2;
      [|destruct ((if (e =? 0)%Z then a else b) w1) as [[cnt|e'] w2] eqn:Hcnt; [|done]]
  end.
  { intros cnt w2. destruct (e =? 0)%Z.
    - unfold ret. by intros [= _ <-].
    - unfold bind. pose proof (on_store_stdout (redis_get (VStr name)) w1) as H3.
      destruct (on_store (redis_get (VStr name)) w1) as [[raw|e'] w1']; [|done].
      unfold lift. cbn [snd] in H3. intros [= _ <-]. done. }
  specialize (H2 _ _ eq_refl).
  unfold bind at 1. unfold print at 1.
  match goal with
  | |- ?rest ?w3 = _ -> _ =>
      intros Hrest;
      assert (only_prints rest) as Hop
  end.
  { apply only_prints_bind; [apply only_prints_on_store, redis_lrange_reads|]. intros ins.
    apply only_prints_bind; [apply only_prints_on_store, redis_lrange_reads|]. intros outs.
    apply replay_loop_only_prints. }
  match type of Hrest with
  | _ ?w3 = _ => destruct (Hop w3) as [_ [more Hmore]]
  end.
  rewrite Hrest in Hmore. cbn [snd stdout] in Hmore.
  exists cnt, more. rewrite Hmore, H2, H1, <- app_assoc. done.
Qed.

(** X16. [replay] is silent exactly when it finds no live client: it
    returns without a line when its argument is [None], has no
    [__self__], or its object has no [_redis] that is a [redis.Redis]; in
    every other case it either raises or prints at least the count. *)
Theorem replay_silent_iff fn :
  replay fn = (Ok tt, []) <-> no_live_client fn.
Proof.
  unfold replay, no_live_client.
  destruct fn as [f|]; [|done].
  destruct (__self__ f) as [[c|]|]; [|done|done].
  destruct (is_redis c); cbn [negb]; [|done].
  split; [|done].
  destruct (replay_body _ _) as [o w] eqn:Hbody. intros [= -> Hout].
  apply replay_body_prints_header in Hbody as (n & more & Hpr).
  cbn [stdout] in Hpr. rewrite Hout in Hpr. done.
Qed.

End Exercise.

(** * The embedding on sample inputs *)

Lemma sample_str_repr_encodable s : is_Some (utf8_encode (sample_str_repr s)).
Proof.
  unfold sample_str_repr.
  apply encodable_app; [by eexists|]. apply encodable_app; [|by eexists].
  induction s as [|c s IH]; [by eexists|].
  cbn [map concat]. apply encodable_app; [|exact IH].
  destruct (is_surrogate c || (0x110000 <=? c)) eqn:Hc.
  - apply encodable_low, Forall_app. split; [repeat constructor; lia|].
    eapply Forall_impl; [apply hex_digits_ascii|]. cbn; lia.
  - apply orb_false_iff in Hc as [Hs Hmax]. apply N.leb_gt in Hmax.
    apply encodable_list. cbn [utf8_encode_list]. unfold utf8_encode_cp.
    rewrite Hs. apply N.ltb_lt in Hmax. rewrite Hmax.
    destruct (c <? 128), (c <? 2048), (c <? 65536); by eexists.
Qed.

Lemma store_get_round_trip_counterexample :
  let store := store sample_float_repr sample_str_repr in
  let key := VStr (uuid_str (uuid4 7)) in
  fst (call (store 7) [VStr [0xD800]] [] (__init__ ∅)) = Raise UnicodeEncodeError /\
  fst (call (store 7) [VFloat PrimFloat.zero] [] (__init__ ∅)) = Ok key /\
  let self' := snd (call (store 7) [VFloat PrimFloat.zero] [] (__init__ ∅)) in
  fst (get sample_float_repr key None self') = Ok (VBytes "0.0") /\
  fst (get_str sample_float_repr key self') = Ok (VStr (lit "0.0")) /\
  fst (get_int sample_float_repr key self') = Raise ValueError.
Proof. vm_compute. repeat split; reflexivity. Qed.

Lemma store_get_round_trip_witness :
  let store := store sample_float_repr sample_str_repr in
  let key := VStr (uuid_str (uuid4 7)) in
  (exists self', call (store 7) [VStr (lit "foo")] [] (__init__ ∅) = (Ok key, self') /\
                 get_str sample_float_repr key self' = (Ok (VStr (lit "foo")), self')) /\
  fst (call (store 7) [VStr [0xD800]] [] (__init__ ∅)) = Raise UnicodeEncodeError /\
  (exists self', call (store 7) [VBytes "foo"] [] (__init__ ∅) = (Ok key, self') /\
                 get sample_float_repr key None self' = (Ok (VBytes "foo"), self')) /\
  (exists self', call (store 7) [VInt (-42)] [] (__init__ ∅) = (Ok key, self') /\
                 get_int sample_float_repr key self' = (Ok (VInt (-42)), self')) /\
  (exists self', call (store 7) [VFloat PrimFloat.zero] [] (__init__ ∅) = (Ok key, self') /\
                 get sample_float_repr key None self' = (Ok (VBytes "0.0"), self') /\
                 fst (get_str sample_float_repr key self') <> Ok (VFloat PrimFloat.zero) /\
                 fst (get_int sample_float_repr key self') <> Ok (VFloat PrimFloat.zero)).
Proof.
  assert (instrumented (db (_redis (__init__ ∅))) 0 [] []) as Hd
    by (repeat split; reflexivity).
  destruct (store_get_round_trip sample_float_repr sample_str_repr
              sample_str_repr_encodable 7 (__init__ ∅) 0 [] [] eq_refl Hd)
    as (Hs & Hbad & Hb & Hi & Hf).
  split; [apply Hs; eexists; reflexivity|].
  split; [apply Hbad; intros [b Hb']; discriminate Hb'|].
  split; [apply Hb|]. split; [apply Hi|]. apply Hf.
Defined.

Lemma call_history_parallel_counterexample :
  let run := run_calls sample_float_repr sample_str_repr sample_calls (__init__ ∅) in
  map is_ok (fst run) = [true; false; true] /\
  length <$> list_at (db (_redis (snd run))) "Cache.store:inputs" = Some 3%nat /\
  length <$> list_at (db (_redis (snd run))) "Cache.store:outputs" = Some 2%nat.
Proof. vm_compute. repeat split; reflexivity. Qed.

Lemma call_history_parallel_witness :
  (exists v b self',
     call (store sample_float_repr sample_str_repr 7) [VStr (lit "foo")] [] (__init__ ∅)
     = (Ok v, self') /\
     encode sample_float_repr v = Ok b /\
     list_at (db (_redis self')) "Cache.store:inputs"
     = Some [recorded sample_float_repr sample_str_repr [VStr (lit "foo")]] /\
     list_at (db (_redis self')) "Cache.store:outputs" = Some [b]) /\
  (exists rets self ins outs,
     run_calls sample_float_repr sample_str_repr sample_completed (__init__ ∅) = (rets, self) /\
     list_at (db (_redis self)) "Cache.store:inputs" = Some ins /\
     list_at (db (_redis self)) "Cache.store:outputs" = Some outs /\
     length rets = 2%nat /\ length ins = 2%nat /\ length outs = 2%nat /\
     forall i, (i < 2)%nat ->
       exists v b, rets !! i = Some (Ok v) /\ outs !! i = Some b /\
                   encode sample_float_repr v = Ok b).
Proof.
  assert (Forall completes sample_completed) as Hc.
  { repeat constructor.
    - exists (VStr (lit "foo")). split; [reflexivity|]. eexists; reflexivity.
    - exists (VInt 5). split; [reflexivity | exact I]. }
  assert (instrumented (db (_redis (__init__ ∅))) 0 [] []) as Hd
    by (repeat split; reflexivity).
  destruct (call_history_parallel sample_float_repr sample_str_repr
              sample_str_repr_encodable) as [Hone Hall].
  split; [|exact (Hall ∅ sample_completed Hc)].
  destruct (Hone {| rand_of := 7; args_of := [VStr (lit "foo")]; kwargs_of := [] |}
              (__init__ ∅) 0%Z [] [] eq_refl Hd (Forall_inv Hc))
    as (v & b & self' & Hcall & Hv & Hi & Ho & _).
  exists v, b, self'. repeat split; assumption.
Defined.


Lemma get_absent_counterexample :
  db (_redis (__init__ ∅)) !! "missing"%string = None /\
  encode sample_float_repr (VStr (lit "missing")) = Ok "missing"%string /\
  fst (get sample_float_repr (VStr (lit "missing")) (Some (fun x => lift (to_int x)))
         (__init__ ∅))
  = Raise TypeError /\
  fst (get sample_float_repr (VStr (lit "missing")) (Some (fun x => lift (to_int x)))
         (__init__ ∅))
  <> Ok VNone.
Proof. split_and!; [reflexivity | reflexivity | reflexivity | discriminate]. Qed.

Lemma get_absent_applies_transform_witness :
  get sample_float_repr (VStr (lit "missing")) (Some (fun x => lift (to_int x))) (__init__ ∅)
  = (Raise TypeError, __init__ ∅) /\
  get sample_float_repr (VStr (lit "missing")) (Some (fun x => ret (of_data x))) (__init__ ∅)
  = (Ok VNone, __init__ ∅).
Proof.
  split.
  - exact (get_absent_applies_transform sample_float_repr (VStr (lit "missing")) "missing"
             (fun x => lift (to_int x)) (__init__ ∅) eq_refl eq_refl).
  - exact (get_absent_applies_transform sample_float_repr (VStr (lit "missing")) "missing"
             (fun x => ret (of_data x)) (__init__ ∅) eq_refl eq_refl).
Defined.

Lemma init_flushes_witness :
  let self := __init__ {["config"%string := RString "old"]} in
  db (_redis self) = ∅ /\
  get sample_float_repr (VStr (lit "config")) None self = (Ok VNone, self) /\
  redis_exists sample_float_repr (VStr (lit "config")) (_redis self) = (Ok 0%Z, _redis self) /\
  redis_lrange sample_float_repr (VStr (lit "config")) 0 (-1) (_redis self)
  = (Ok [], _redis self).
Proof.
  exact (init_flushes sample_float_repr {["config"%string := RString "old"]}
           (VStr (lit "config")) "config" eq_refl).
Defined.

Lemma get_absent_none_witness :
  get sample_float_repr (VStr (lit "missing")) None (__init__ ∅) = (Ok VNone, __init__ ∅).
Proof.
  exact (get_absent_none sample_float_repr (VStr (lit "missing")) "missing"
           (__init__ ∅) eq_refl eq_refl).
Defined.

Lemma replay_transcript_witness :
  let f := {| __self__ := Some (Some sample_client); __qualname__ := lit "Cache.store" |} in
  exists lines,
    replay sample_float_repr (Some f) = (Ok tt, header_line (lit "Cache.store") 3 :: lines) /\
    lines = [lit "Cache.store(" ++ lit "*('a',)) -> b'k1'";
             lit "Cache.store(" ++ lit "*(None,)) -> b'k2'"] /\
    length lines = 2%nat.
Proof.
  intros f.
  destruct (replay_transcript sample_float_repr f sample_client 3
              ["('a',)"; "(None,)"; "(5,)"]%string ["k1"; "k2"]%string
              [lit "('a',)"; lit "(None,)"; lit "(5,)"])
    as (lines & Hrun & Hlines & Hlen); try reflexivity.
  { eexists; reflexivity. }
  { repeat constructor. }
  exists lines. split; [exact Hrun|]. split; [|exact Hlen].
  rewrite Hlines. reflexivity.
Defined.

Lemma replay_no_calls_witness :
  replay sample_float_repr (Some (bound_store (__init__ ∅)))
  = (Ok tt, [lit "Cache.store was called 0 times:"]).
Proof.
  apply (replay_no_calls sample_float_repr (bound_store (__init__ ∅)) (_redis (__init__ ∅)));
    try reflexivity.
  eexists; reflexivity.
Defined.


Lemma typed_getters_raise_on_absent_witness :
  get_str sample_float_repr (VStr (lit "missing")) (__init__ ∅)
  = (Raise AttributeError, __init__ ∅) /\
  get_int sample_float_repr (VStr (lit "missing")) (__init__ ∅)
  = (Raise TypeError, __init__ ∅).
Proof.
  exact (typed_getters_raise_on_absent sample_float_repr (VStr (lit "missing")) "missing"
           (__init__ ∅) eq_refl eq_refl).
Defined.

(** Three calls, the second of which fails, and then [replay]: the count
    is three, and the input of the failed call is paired with the output
    of the call after it. *)
Example replay_after_sample_calls :
  replay sample_float_repr
    (Some (bound_store
             (snd (run_calls sample_float_repr sample_str_repr sample_calls (__init__ ∅)))))
  = (Ok tt,
     [lit "Cache.store was called 3 times:";
      lit "Cache.store(" ++ lit "*('foo',)) -> b'00000000-0000-4000-8000-000000000007'";
      lit "Cache.store(" ++ lit "*(None,)) -> b'00000000-0000-4000-8000-000000000009'"]).
Proof. vm_compute. reflexivity. Qed.

(** * The further properties on sample inputs *)






Lemma keyword_argument_not_recorded_witness :
  exists self',
    call (store sample_float_repr sample_str_repr 7) [] [(lit "data", VInt 5)] (__init__ ∅)
    = (Ok (VStr (uuid_str (uuid4 7))), self') /\
    db (_redis self') !! pack (uuid_str (uuid4 7)) = Some (RString "5") /\
    list_at (db (_redis self')) "Cache.store:inputs" = Some ["()"%string].
Proof.
  assert (instrumented (db (_redis (__init__ ∅))) 0 [] []) as Hd
    by (repeat split; reflexivity).
  exact (keyword_argument_not_recorded sample_float_repr sample_str_repr
           sample_str_repr_encodable 7 (VInt 5) "5" (__init__ ∅) 0 [] [] eq_refl Hd eq_refl).
Defined.

Lemma stored_value_persists_witness :
  exists self1,
    call (store sample_float_repr sample_str_repr 7) [VStr (lit "foo")] [] (__init__ ∅)
    = (Ok (VStr (uuid_str (uuid4 7))), self1) /\
    get sample_float_repr (VStr (uuid_str (uuid4 7))) None
      (snd (run_calls sample_float_repr sample_str_repr sample_later self1))
    = (Ok (VBytes "foo"),
       snd (run_calls sample_float_repr sample_str_repr sample_later self1)).
Proof.
  assert (instrumented (db (_redis (__init__ ∅))) 0 [] []) as Hd
    by (repeat split; reflexivity).
  assert (Forall (fun i => key_of i <> uuid_str (uuid4 7)) sample_later) as Hl
    by (repeat constructor; discriminate).
  exact (stored_value_persists sample_float_repr sample_str_repr sample_str_repr_encodable
           7 (VStr (lit "foo")) "foo" sample_later (__init__ ∅) 0 [] [] eq_refl Hd eq_refl Hl).
Defined.

Lemma same_key_overwrites_witness :
  exists self1 self2,
    call (store sample_float_repr sample_str_repr 7) [VStr (lit "foo")] [] (__init__ ∅)
    = (Ok (VStr (uuid_str (uuid4 7))), self1) /\
    call (store sample_float_repr sample_str_repr 7) [VInt 5] [] self1
    = (Ok (VStr (uuid_str (uuid4 7))), self2) /\
    get sample_float_repr (VStr (uuid_str (uuid4 7))) None self2 = (Ok (VBytes "5"), self2).
Proof.
  assert (instrumented (db (_redis (__init__ ∅))) 0 [] []) as Hd
    by (repeat split; reflexivity).
  exact (same_key_overwrites sample_float_repr sample_str_repr sample_str_repr_encodable
           7 (VStr (lit "foo")) (VInt 5) "foo" "5" (__init__ ∅) 0 [] []
           eq_refl Hd eq_refl eq_refl).
Defined.

Lemma stored_value_is_bytes_witness :
  (exists self',
     call (store sample_float_repr sample_str_repr 7) [VFloat PrimFloat.zero] [] (__init__ ∅)
     = (Ok (VStr (uuid_str (uuid4 7))), self') /\
     get sample_float_repr (VStr (uuid_str (uuid4 7))) None self'
     = (Ok (VBytes "0.0"), self')) /\
  (exists self',
     call (store sample_float_repr sample_str_repr 7) [VInt (-42)] [] (__init__ ∅)
     = (Ok (VStr (uuid_str (uuid4 7))), self') /\
     get sample_float_repr (VStr (uuid_str (uuid4 7))) None self'
     = (Ok (VBytes "-42"), self') /\
     get_str sample_float_repr (VStr (uuid_str (uuid4 7))) self'
     = (Ok (VStr (lit "-42")), self')).
Proof.
  assert (instrumented (db (_redis (__init__ ∅))) 0 [] []) as Hd
    by (repeat split; reflexivity).
  destruct (stored_value_is_bytes sample_float_repr sample_str_repr sample_str_repr_encodable
              7 (__init__ ∅) 0 [] [] eq_refl Hd) as [Hany Hint].
  split; [exact (Hany (VFloat PrimFloat.zero) "0.0"%string eq_refl) | exact (Hint (-42)%Z)].
Defined.



Lemma replay_undecodable_input_witness :
  replay sample_float_repr
    (Some {| __self__ := Some (Some sample_bad_input); __qualname__ := lit "Cache.store" |})
  = (Raise UnicodeDecodeError,
     [lit "Cache.store was called 3 times:"; lit "Cache.store(" ++ lit "*('a',)) -> b'k1'"]).
Proof.
  rewrite (replay_undecodable_input sample_float_repr
             {| __self__ := Some (Some sample_bad_input); __qualname__ := lit "Cache.store" |}
             sample_bad_input 3 ["('a',)"%string] (pack [255]) ["(5,)"%string]
             ["k1"; "k2"; "k3"]%string [lit "('a',)"]
             eq_refl eq_refl ltac:(eexists; reflexivity) eq_refl eq_refl eq_refl
             ltac:(repeat constructor) eq_refl).
  reflexivity.
Defined.

Lemma replay_unreadable_counter_witness :
  replay sample_float_repr
    (Some {| __self__ := Some (Some sample_bad_count); __qualname__ := lit "Cache.store" |})
  = (Raise ValueError, []) /\
  replay sample_float_repr
    (Some {| __self__ := Some (Some sample_list_count); __qualname__ := lit "Cache.store" |})
  = (Raise ResponseError, []).
Proof.
  split.
  - exact (proj1 (replay_unreadable_counter sample_float_repr
                    {| __self__ := Some (Some sample_bad_count);
                       __qualname__ := lit "Cache.store" |}
                    sample_bad_count eq_refl eq_refl ltac:(eexists; reflexivity))
             "many"%string eq_refl eq_refl).
  - exact (proj2 (replay_unreadable_counter sample_float_repr
                    {| __self__ := Some (Some sample_list_count);
                       __qualname__ := lit "Cache.store" |}
                    sample_list_count eq_refl eq_refl ltac:(eexists; reflexivity))
             ["1"%string] eq_refl).
Defined.

(** The transform given to [get] is any callable: one that stores what
    it is given leaves the cache changed. *)
Example get_transform_may_write :
  let self := __init__ ∅ in
  let fn := fun x : option bytes =>
              call (store sample_float_repr sample_str_repr 7) [VInt 5] [] in
  fst (get sample_float_repr (VStr (lit "missing")) (Some fn) self)
  = Ok (VStr (uuid_str (uuid4 7))) /\
  db (_redis (snd (get sample_float_repr (VStr (lit "missing")) (Some fn) self)))
    !! "Cache.store"%string = Some (RString "1").
Proof. vm_compute. split; reflexivity. Qed.
